(** * Move semantics example: a shallow embedding of [main.cpp]

    The program defines three value types.  [My_string] owns a heap buffer
    through a raw pointer and implements the copy and move special members,
    [operator+=] and [print_str] by hand.  [Std_string] wraps a
    [std::string], and [My_custom] has a [Std_string] member.

    The embedding keeps what the C++ code manipulates:
    - the free store, as a list of allocations indexed by allocation number
      (a released allocation keeps its number and is never handed out
      again, so stale pointers stay recognisable);
    - the objects, as a finite map from the name of the variable that holds
      them to their fields, so that [this] and [rhs] may denote the same
      object;
    - [std::cout], as the list of the lines written so far.
    A [std::string] is a value; what its move assignment leaves in the
    source is unspecified by the language and is a parameter of the model.

    Every member function is a computation in a state and error monad; the
    errors are the undefined behaviours the code can run into.  [size_t] is
    [N], and the one addition the code performs on it wraps at [2^64].

    Three things are left out.  An allocation always succeeds: the free
    store has no bound.  A [memcpy] of no bytes is taken to do nothing,
    whatever its pointers are.  The counter of the loop of [print_str] is an
    [int] in the code and a natural number here. *)

From Stdlib Require Import NArith String Ascii List Lia.
From stdpp Require Import base decidable option list gmap strings.

Local Open Scope N_scope.

(** ** Memory *)

(** A [char] in memory: [None] is an indeterminate value, as left by
    [new char[n]] without an initialiser. *)
Abbreviation cell := (option ascii).

Abbreviation block := (list cell).

(** The free store (and the static storage of string literals).  Entry [b]
    is [Some cells] while allocation [b] is live and [None] once it has been
    released. *)
Abbreviation heap := (list (option block)).

(** A [char*] that points to the first element of an allocation; [None] is
    [nullptr].  The program only ever offsets a pointer inside a call to
    [memcpy], which takes the offset as an argument here. *)
Abbreviation ptr := (option nat).

Definition nullptr : ptr := None.

Inductive fault : Type :=
| NullPointer     (* access through nullptr *)
| Dangling        (* access to, or release of, a released allocation *)
| OutOfBounds     (* access past the end of an allocation *)
| Overlapping     (* memcpy between overlapping regions *)
| Indeterminate   (* evaluation of an indeterminate char *)
| NoObject.       (* use of a variable that holds no object *)

Inductive result (A : Type) : Type :=
| Ok (a : A)
| Fault (f : fault).
Arguments Ok {A} a.
Arguments Fault {A} f.

(** ** Objects *)

Record My_string : Type := {
  _init : ptr;
  _length : N;
  _size : N
}.

Definition with_init (p : ptr) (o : My_string) : My_string :=
  {| _init := p; _length := _length o; _size := _size o |}.
Definition with_length (n : N) (o : My_string) : My_string :=
  {| _init := _init o; _length := n; _size := _size o |}.
Definition with_size (n : N) (o : My_string) : My_string :=
  {| _init := _init o; _length := _length o; _size := n |}.

(** [Std_string] wraps a [std::string], a value here; [My_custom] has one
    [Std_string] member. *)
Record Std_string : Type := { _std_string : string }.

Record My_custom : Type := { _str : Std_string }.

Record state : Type := {
  mem : heap;
  objs : gmap string My_string;
  customs : gmap string My_custom;
  cout : list string
}.

Definition with_mem (h : heap) (st : state) : state :=
  {| mem := h; objs := objs st; customs := customs st; cout := cout st |}.
Definition with_objs (m : gmap string My_string) (st : state) : state :=
  {| mem := mem st; objs := m; customs := customs st; cout := cout st |}.
Definition with_customs (m : gmap string My_custom) (st : state) : state :=
  {| mem := mem st; objs := objs st; customs := m; cout := cout st |}.
Definition with_cout (l : list string) (st : state) : state :=
  {| mem := mem st; objs := objs st; customs := customs st; cout := l |}.

(** ** The monad *)

Definition M (A : Type) : Type := state -> result (A * state).

Definition ret {A} (a : A) : M A := fun st => Ok (a, st).

Definition bind {A B} (m : M A) (k : A -> M B) : M B :=
  fun st => match m st with
            | Ok (a, st') => k a st'
            | Fault f => Fault f
            end.

Definition throw {A} (f : fault) : M A := fun _ => Fault f.

Declare Scope cpp_scope.
Delimit Scope cpp_scope with cpp.
Notation "x <- e ;; k" := (bind e (fun x => k))
  (at level 100, e at next level, right associativity) : cpp_scope.
Notation "e ;; k" := (bind e (fun _ => k))
  (at level 100, right associativity) : cpp_scope.
Local Open Scope cpp_scope.

(** The state a computation ends in, if it ends without a fault. *)
Definition exec {A} (m : M A) (st : state) : result state :=
  match m st with
  | Ok (_, st') => Ok st'
  | Fault f => Fault f
  end.

(** ** Primitive operations *)

(** [std::cout << ... << '\n']: one finished line. *)
Definition print (line : string) : M unit :=
  fun st => Ok (tt, with_cout (cout st ++ [line]) st).

(** [new char[n]] with [c = None], [new char[n]()] with [c = Some zero]. *)
Definition new_char (n : N) (c : cell) : M ptr :=
  fun st => Ok (Some (length (mem st)),
                with_mem (mem st ++ [Some (replicate (N.to_nat n) c)]) st).

(** [delete[] p]. *)
Definition delete_arr (p : ptr) : M unit :=
  fun st => match p with
            | None => Ok (tt, st)
            | Some b =>
                match mem st !! b with
                | Some (Some _) => Ok (tt, with_mem (<[b := None]> (mem st)) st)
                | _ => Fault Dangling
                end
            end.

(** The cells of the allocation [p] points to. *)
Definition deref (p : ptr) : M block :=
  fun st => match p with
            | None => Fault NullPointer
            | Some b =>
                match mem st !! b with
                | Some (Some cells) => Ok (cells, st)
                | _ => Fault Dangling
                end
            end.

Definition overwrite (off : nat) (src dst : block) : block :=
  take off dst ++ src ++ drop (off + length src) dst.

(** [memcpy(&dst[off], src, n)].  A copy of no bytes touches no memory. *)
Definition memcpy (dst : ptr) (off : N) (src : ptr) (n : N) : M unit :=
  fun st =>
    if decide (n = 0) then Ok (tt, st)
    else
      match src, dst with
      | Some s, Some d =>
          match mem st !! s, mem st !! d with
          | Some (Some from), Some (Some to) =>
              if decide (N.to_nat n <= length from /\
                         N.to_nat off + N.to_nat n <= length to)%nat
              then
                if decide (s = d /\ off < n) then Fault Overlapping
                else
                  Ok (tt, with_mem
                            (<[d := Some (overwrite (N.to_nat off)
                                            (take (N.to_nat n) from) to)]>
                               (mem st)) st)
              else Fault OutOfBounds
          | _, _ => Fault Dangling
          end
      | _, _ => Fault NullPointer
      end.

(** The characters before the first terminator. *)
Fixpoint c_str (cells : block) : result (list ascii) :=
  match cells with
  | [] => Fault OutOfBounds
  | None :: _ => Fault Indeterminate
  | Some c :: rest =>
      if decide (c = zero) then Ok []
      else match c_str rest with
           | Ok s => Ok (c :: s)
           | Fault f => Fault f
           end
  end.

(** [std::strlen(p)]. *)
Definition strlen (p : ptr) : M N :=
  cells <- deref p ;;
  match c_str cells with
  | Ok s => ret (N.of_nat (length s))
  | Fault f => throw f
  end.

(** [p[i]], evaluated. *)
Definition index (p : ptr) (i : nat) : M ascii :=
  cells <- deref p ;;
  match cells !! i with
  | Some (Some c) => ret c
  | Some None => throw Indeterminate
  | None => throw OutOfBounds
  end.

(** A string literal: an array in static storage, terminator included. *)
Definition literal (s : string) : M ptr :=
  fun st => Ok (Some (length (mem st)),
                with_mem (mem st ++ [Some (map Some (list_ascii_of_string s)
                                             ++ [Some zero])]) st).

Definition get (x : string) : M My_string :=
  fun st => match objs st !! x with
            | Some o => Ok (o, st)
            | None => Fault NoObject
            end.

Definition put (x : string) (o : My_string) : M unit :=
  fun st => Ok (tt, with_objs (<[x := o]> (objs st)) st).

(** Read of a member, [x.f]. *)
Definition fld {A} (f : My_string -> A) (x : string) : M A :=
  o <- get x ;; ret (f o).

(** Write of a member, [x.f = v], with [upd] the setter of [f]. *)
Definition assign {A} (upd : A -> My_string -> My_string) (x : string) (v : A)
  : M unit :=
  o <- get x ;; put x (upd v o).

(** The end of the lifetime of [x]. *)
Definition forget (x : string) : M unit :=
  fun st => Ok (tt, with_objs (delete x (objs st)) st).

(** The unsigned addition of two [size_t]. *)
Definition size_add (a b : N) : N := (a + b) mod 2 ^ 64.

(** ** [My_string] *)

(** [My_string()] *)
Definition My_string_default (this : string) : M unit :=
  put this {| _init := nullptr; _length := 0; _size := 0 |} ;;
  print "Default constructor has been called".

(** [My_string(const char* rhs)].  The members are initialised in the order
    of their declaration: [_length] before [_size]. *)
Definition My_string_cstr (this : string) (rhs : ptr) : M unit :=
  len <- strlen rhs ;;
  sz <- strlen rhs ;;
  p <- new_char len (Some zero) ;;
  memcpy p 0 rhs len ;;
  put this {| _init := p; _length := len; _size := sz |}.

(** [My_string(const My_string& rhs)] *)
Definition My_string_copy (this rhs : string) : M unit :=
  len <- fld _length rhs ;;
  sz <- fld _size rhs ;;
  n <- fld _length rhs ;;
  p <- new_char n None ;;
  from <- fld _init rhs ;;
  n <- fld _length rhs ;;
  memcpy p 0 from n ;;
  put this {| _init := p; _length := len; _size := sz |} ;;
  print "COPY constructor has been called".

(** [My_string(My_string&& rsh)] *)
Definition My_string_move (this rsh : string) : M unit :=
  p <- fld _init rsh ;;
  assign with_init rsh nullptr ;;
  sz <- fld _size rsh ;;
  len <- fld _length rsh ;;
  assign with_size rsh 0 ;;
  assign with_length rsh 0 ;;
  put this {| _init := p; _length := len; _size := sz |} ;;
  print "MOVE constructor has been called".

(** [operator=(const My_string& rhs)] *)
Definition copy_assign (this rhs : string) : M unit :=
  p <- fld _init this ;;
  (if decide (p <> nullptr) then delete_arr p else ret tt) ;;
  n <- fld _length rhs ;;
  p <- new_char n None ;;
  assign with_init this p ;;
  to <- fld _init this ;;
  from <- fld _init rhs ;;
  n <- fld _length rhs ;;
  memcpy to 0 from n ;;
  sz <- fld _size rhs ;;
  assign with_size this sz ;;
  len <- fld _length rhs ;;
  assign with_length this len ;;
  print "COPY assignment has been called".

(** [operator=(My_string&& rhs)] *)
Definition move_assign (this rhs : string) : M unit :=
  if decide (this <> rhs) then
    p <- fld _init this ;;
    delete_arr p ;;
    p <- fld _init rhs ;;
    assign with_init this p ;;
    len <- fld _length rhs ;;
    assign with_length this len ;;
    sz <- fld _size rhs ;;
    assign with_size this sz ;;
    assign with_init rhs nullptr ;;
    assign with_length rhs 0 ;;
    assign with_size rhs 0 ;;
    print "MOVE assignment has been called"
  else ret tt.

(** [resize(size_t new_length)] *)
Definition resize (this : string) (new_length : N) : M unit :=
  old <- fld _init this ;;
  sz <- fld _size this ;;
  aux <- new_char (size_add sz new_length) None ;;
  from <- fld _init this ;;
  n <- fld _length this ;;
  memcpy aux 0 from n ;;
  assign with_init this aux ;;
  delete_arr old.

(** [operator+=(const My_string& rhs)] *)
Definition append (this rhs : string) : M unit :=
  sz <- fld _size this ;;
  n <- fld _length rhs ;;
  (if decide (sz <= n) then resize this n else ret tt) ;;
  to <- fld _init this ;;
  off <- fld _length this ;;
  from <- fld _init rhs ;;
  n <- fld _length rhs ;;
  memcpy to off from n.

(** [~My_string()] *)
Definition My_string_dtor (this : string) : M unit :=
  p <- fld _init this ;;
  delete_arr p ;;
  print "DESTRUCTOR has been called" ;;
  forget this.

(** The loop of [print_str]: [_init[i]] for [i] from [0] on, while
    [i < strlen(_init)].  [count] bounds the number of turns; [print_str]
    passes [strlen(_init)], which is all the turns the loop can take. *)
Fixpoint print_loop (p : ptr) (i count : nat) : M (list ascii) :=
  match count with
  | O => ret []
  | S count' =>
      n <- strlen p ;;
      if decide (i < N.to_nat n)%nat then
        c <- index p i ;;
        s <- print_loop p (S i) count' ;;
        ret (c :: s)
      else ret []
  end.

(** [print_str(std::string obj_name)] *)
Definition print_str (this : string) (obj_name : string) : M unit :=
  p <- fld _init this ;;
  if decide (p <> nullptr) then
    n <- strlen p ;;
    s <- print_loop p 0 (N.to_nat n) ;;
    print (obj_name ++ " : " ++ string_of_list_ascii s)
  else
    print (obj_name ++ " : No data available").

(** ** The scenarios *)

(** Locals are destroyed in the reverse order of their construction. *)

Definition custom_append : M unit :=
  print "custom append (My_string)" ;;
  l <- literal "first Element " ;;
  My_string_cstr "lhs" l ;;
  r <- literal "second addition " ;;
  My_string_cstr "rhs" r ;;
  append "lhs" "rhs" ;;
  print_str "lhs" "lhs" ;;
  My_string_dtor "rhs" ;;
  My_string_dtor "lhs".

Definition case_1 : M unit :=
  print "Case 1 : " ;;
  l <- literal "someRandomMessage" ;;
  My_string_cstr "rhs" l ;;
  print_str "rhs" "rhs" ;;
  My_string_move "lhs_move" "rhs" ;;
  print_str "rhs" "rhs" ;;
  print_str "lhs_move" "lhs_move" ;;
  My_string_copy "lhs_copy" "lhs_move" ;;
  print_str "lhs_copy" "lhs_copy" ;;
  My_string_dtor "lhs_copy" ;;
  My_string_dtor "lhs_move" ;;
  My_string_dtor "rhs".

Definition case_2 : M unit :=
  print "Case 2 : " ;;
  My_string_default "lhs" ;;
  l <- literal "Not empty" ;;
  My_string_cstr "rhs" l ;;
  copy_assign "lhs" "rhs" ;;
  My_string_dtor "rhs" ;;
  My_string_dtor "lhs".

Definition case_3 : M unit :=
  print "Case 3 : " ;;
  l <- literal "thisIsAssignmentIsTooLong" ;;
  My_string_cstr "rhs" l ;;
  l <- literal "" ;;
  My_string_cstr "lhs" l ;;
  copy_assign "lhs" "rhs" ;;
  print_str "lhs" "lhs" ;;
  l <- literal "" ;;
  My_string_cstr "lhs_move" l ;;
  move_assign "lhs_move" "lhs" ;;
  print_str "lhs_move" "lhs_move" ;;
  print_str "lhs" "lhs" ;;
  My_string_dtor "lhs_move" ;;
  My_string_dtor "lhs" ;;
  My_string_dtor "rhs".

(** ** [Std_string] and [My_custom] *)

Section Composition.

(** What the move assignment of [std::string] leaves in its source, given
    the value moved out: valid but unspecified. *)
Variable moved_from : string -> string.

Definition get_custom (x : string) : M My_custom :=
  fun st => match customs st !! x with
            | Some o => Ok (o, st)
            | None => Fault NoObject
            end.

Definition put_custom (x : string) (o : My_custom) : M unit :=
  fun st => Ok (tt, with_customs (<[x := o]> (customs st)) st).

Definition forget_custom (x : string) : M unit :=
  fun st => Ok (tt, with_customs (delete x (customs st)) st).

(** The [Std_string] objects of the program are the [_str] members of the
    [My_custom] objects: the member functions of [Std_string] take the name
    of the enclosing object. *)

(** [Std_string()], for the member of [owner] under construction. *)
Definition Std_string_default (owner : string) : M unit :=
  put_custom owner {| _str := {| _std_string := "default" |} |} ;;
  print "Std_string - Default constructor called".

(** [Std_string(const Std_string& rhs) = default], likewise. *)
Definition Std_string_copy (owner rhs : string) : M unit :=
  r <- get_custom rhs ;;
  put_custom owner {| _str := {| _std_string := _std_string (_str r) |} |}.

(** [Std_string::operator=(const Std_string& rhs)] *)
Definition Std_string_copy_assign (this rhs : string) : M unit :=
  r <- get_custom rhs ;;
  put_custom this {| _str := {| _std_string := _std_string (_str r) |} |} ;;
  print "Std_string - Copy assignation called".

(** [Std_string::operator=(Std_string&& rhs)] *)
Definition Std_string_move_assign (this rhs : string) : M unit :=
  r <- get_custom rhs ;;
  put_custom rhs
    {| _str := {| _std_string := moved_from (_std_string (_str r)) |} |} ;;
  put_custom this {| _str := {| _std_string := _std_string (_str r) |} |} ;;
  print "Std_string - move assignation called".

(** [~Std_string()] *)
Definition Std_string_dtor (owner : string) : M unit :=
  print "Std_string - Destructor called".

(** [My_custom()] *)
Definition My_custom_default (this : string) : M unit :=
  Std_string_default this ;;
  print "My_custom-Default constructor called".

(** [My_custom(const My_custom& rhs)] *)
Definition My_custom_copy (this rhs : string) : M unit :=
  Std_string_copy this rhs ;;
  print "My_custom-move failed!".

(** [My_custom(My_custom&& rhs)]: no member initialiser, so [_str] is
    default-constructed before the body runs. *)
Definition My_custom_move (this rhs : string) : M unit :=
  Std_string_default this ;;
  Std_string_move_assign this rhs ;;
  print "My_custom - move constructor called".

(** [~My_custom()]: the body, then the destructor of the member. *)
Definition My_custom_dtor (this : string) : M unit :=
  print "My_custom - Destructor called" ;;
  Std_string_dtor this ;;
  forget_custom this.

(** The scenario of [My_custom]. *)
Definition case_4 : M unit :=
  print "Trying to move (Case 4)" ;;
  My_custom_default "rhs" ;;
  My_custom_move "lhs" "rhs" ;;
  My_custom_dtor "lhs" ;;
  My_custom_dtor "rhs".

End Composition.

(** [main] *)
Definition main : M unit := custom_append.

(** The state the program starts in. *)
Definition initial : state :=
  {| mem := []; objs := ∅; customs := ∅; cout := [] |}.

(** ** Notions the properties are stated with *)

(** The cells of the allocation an object points to, if it is live. *)
Definition buffer (st : state) (o : My_string) : option block :=
  match _init o with
  | Some b => match mem st !! b with
              | Some (Some cells) => Some cells
              | _ => None
              end
  | None => None
  end.

(** The logical content of an object: the first [_length] cells of its
    buffer, and nothing for an object without a buffer. *)
Definition content (st : state) (o : My_string) : list cell :=
  match buffer st o with
  | Some cells => take (N.to_nat (_length o)) cells
  | None => []
  end.

(** The free store after [delete[] p]. *)
Definition release (p : ptr) (h : heap) : heap :=
  match p with
  | Some b => <[b := None]> h
  | None => h
  end.

(** The empty-marker state. *)
Definition empty_marker : My_string :=
  {| _init := nullptr; _length := 0; _size := 0 |}.

(** An object is valid when it is without a buffer and of length 0, or
    points to a live allocation that holds at least [_length] cells. *)
Definition valid (st : state) (o : My_string) : Prop :=
  match _init o with
  | None => _length o = 0
  | Some _ => match buffer st o with
              | Some cells => (N.to_nat (_length o) <= length cells)%nat
              | None => False
              end
  end.

(** Two objects do not share an allocation. *)
Definition separate (o1 o2 : My_string) : Prop :=
  _init o1 = nullptr \/ _init o1 <> _init o2.

(** The line [print_str] writes for an object without a buffer. *)
Definition no_data (obj_name : string) : string :=
  obj_name ++ " : No data available".

(** The capacity invariant, on every object of a state. *)
Definition capacity_ok (st : state) : Prop :=
  map_Forall (fun _ o => _length o <= _size o) (objs st).

(** What [a += b] leaves behind, for an [a] of stored length [len] and
    stored capacity [sz] before it: the same stored length and capacity,
    and, when [b] is not empty, the content of [b] in the buffer of [a] from
    position [len] on. *)
Definition appended (st' : state) (a b : string) (len sz : N) : Prop :=
  exists oa' ob',
    objs st' !! a = Some oa' /\ objs st' !! b = Some ob' /\
    _length oa' = len /\ _size oa' = sz /\
    (_length ob' <> 0 ->
     exists cells,
       buffer st' oa' = Some cells /\
       (N.to_nat len + N.to_nat (_length ob') <= length cells)%nat /\
       take (N.to_nat (_length ob')) (drop (N.to_nat len) cells)
       = content st' ob').

(** The operations that change [T] without taking [S] as the source of a
    move. *)
Inductive mutates (T S : string) : M unit -> Prop :=
| mutates_append U : mutates T S (append T U)
| mutates_copy_assign U : mutates T S (copy_assign T U)
| mutates_move_assign U : U <> S -> mutates T S (move_assign T U)
| mutates_dtor : mutates T S (My_string_dtor T).

(** What a copy from [S] (with fields [s]) into [T] leaves behind, from
    state [st] to state [st']: the source as it was, a target of equal
    content in a live allocation of its own, and a source that no later
    change of the target reaches. *)
Definition duplicated (st : state) (S T : string) (s : My_string)
    (st' : state) : Prop :=
  objs st' !! S = Some s /\ buffer st' s = buffer st s /\
  exists t',
    objs st' !! T = Some t' /\
    _length t' = _length s /\ _size t' = _size s /\
    content st' t' = content st' s /\
    is_Some (buffer st' t') /\ _init t' <> _init s /\
    forall m st'',
      mutates T S m -> exec m st' = Ok st'' ->
      objs st'' !! S = Some s /\ buffer st'' s = buffer st s.

(** An object [T] that holds an allocation of no cells: not the
    empty-marker state, and [print_str] reads past the allocation instead of
    reporting that there is no data. *)
Definition empty_allocation (st' : state) (T : string) : Prop :=
  exists t',
    objs st' !! T = Some t' /\
    _init t' <> nullptr /\ buffer st' t' = Some [] /\
    forall name,
      exec (print_str T name) st' = Fault OutOfBounds /\
      exec (print_str T name) st'
      <> Ok (with_cout (cout st' ++ [no_data name]) st').

(** The operations of [My_string] that build or change an object. *)
Inductive operation : Type :=
| Default_construct (this : string)
| Construct_from (this : string) (rhs : ptr)
| Copy_construct (this rhs : string)
| Move_construct (this rhs : string)
| Copy_assign (this rhs : string)
| Move_assign (this rhs : string)
| Append (this rhs : string).

Definition perform (op : operation) : M unit :=
  match op with
  | Default_construct this => My_string_default this
  | Construct_from this rhs => My_string_cstr this rhs
  | Copy_construct this rhs => My_string_copy this rhs
  | Move_construct this rhs => My_string_move this rhs
  | Copy_assign this rhs => copy_assign this rhs
  | Move_assign this rhs => move_assign this rhs
  | Append this rhs => append this rhs
  end.

(** ** Sample states *)

(** The state after [My_string S("abc"); My_string T("x");]. *)
Definition two_strings : state :=
  match exec (l <- literal "abc" ;; My_string_cstr "S" l ;;
              l <- literal "x" ;; My_string_cstr "T" l) initial with
  | Ok st => st
  | Fault _ => initial
  end.


(** The state after [My_string a("ab"); My_string b("cd"); My_string c("xy");],
    then after [a += b], then after [a += c]. *)
Definition three_strings : state :=
  match exec (l <- literal "ab" ;; My_string_cstr "a" l ;;
              l <- literal "cd" ;; My_string_cstr "b" l ;;
              l <- literal "xy" ;; My_string_cstr "c" l) initial with
  | Ok st => st
  | Fault _ => initial
  end.

Definition after_first_append : state :=
  match exec (append "a" "b") three_strings with
  | Ok st => st
  | Fault _ => initial
  end.

Definition after_second_append : state :=
  match exec (append "a" "c") after_first_append with
  | Ok st => st
  | Fault _ => initial
  end.

(** The state after [My_string S{}; My_string T("x");]. *)
Definition empty_and_full : state :=
  match exec (My_string_default "S" ;;
              l <- literal "x" ;; My_string_cstr "T" l) initial with
  | Ok st => st
  | Fault _ => initial
  end.

(** The state after [T = std::move(S);] from [two_strings]. *)
Definition after_move_assign : state :=
  match exec (move_assign "T" "S") two_strings with
  | Ok st => st
  | Fault _ => initial
  end.

(** The statements of [custom_append] that come before the call of
    [print_str]. *)
Definition custom_append_prefix : M unit :=
  print "custom append (My_string)" ;;
  l <- literal "first Element " ;;
  My_string_cstr "lhs" l ;;
  r <- literal "second addition " ;;
  My_string_cstr "rhs" r ;;
  append "lhs" "rhs".

(** The state after [My_string E("");]. *)
Definition empty_string : state :=
  match exec (l <- literal "" ;; My_string_cstr "E" l) initial with
  | Ok st => st
  | Fault _ => initial
  end.

(** ** Ownership *)

(** The ownership discipline of [My_string]: every object is valid, and no
    two objects share an allocation. *)
Definition owned (st : state) : Prop :=
  (forall x o, objs st !! x = Some o -> valid st o) /\
  (forall x y ox oy,
      x <> y -> objs st !! x = Some ox -> objs st !! y = Some oy ->
      separate ox oy).

(** From the free store [h] to [h'], the allocation [o] points to stays
    live and keeps its size. *)
Definition carries (h h' : heap) (o : My_string) : Prop :=
  forall b cells,
    _init o = Some b -> h !! b = Some (Some cells) ->
    exists cells', h' !! b = Some (Some cells') /\ length cells' = length cells.

(** The states after ["abc"], then [My_string S("abc");], then
    [My_string T(S);], then the end of the lifetime of [S]. *)
Definition after_literal : state :=
  match exec (literal "abc") initial with
  | Ok st => st
  | Fault _ => initial
  end.

Definition after_construct : state :=
  match exec (My_string_cstr "S" (Some 0%nat)) after_literal with
  | Ok st => st
  | Fault _ => initial
  end.

Definition after_copy : state :=
  match exec (My_string_copy "T" "S") after_construct with
  | Ok st => st
  | Fault _ => initial
  end.

Definition after_dtor : state :=
  match exec (My_string_dtor "S") after_copy with
  | Ok st => st
  | Fault _ => initial
  end.

(** A state with one object [W] whose stored capacity is the largest
    [size_t], over the allocation of the literal ["abc"]. *)
Definition wrapping : state :=
  {| mem := [Some [Some "a"; Some "b"; Some "c"; Some zero]%char];
     objs := {["W" := {| _init := Some 0%nat; _length := 3;
                         _size := 2 ^ 64 - 1 |}]};
     customs := ∅; cout := [] |}.

(** What an operation needs to run: its operands exist, the input of the
    constructor from a character array is terminated, the copy assignment
    is not onto itself, and the append is one that grows the buffer, from a
    stored length within the stored capacity and without a wrap of the new
    size. *)
Definition ready (st : state) (op : operation) : Prop :=
  match op with
  | Default_construct _ => True
  | Construct_from _ rhs =>
      exists b cells s,
        rhs = Some b /\ mem st !! b = Some (Some cells) /\ c_str cells = Ok s
  | Copy_construct _ rhs => is_Some (objs st !! rhs)
  | Move_construct _ rhs => is_Some (objs st !! rhs)
  | Copy_assign this rhs =>
      this <> rhs /\ is_Some (objs st !! this) /\ is_Some (objs st !! rhs)
  | Move_assign this rhs =>
      is_Some (objs st !! this) /\ is_Some (objs st !! rhs)
  | Append this rhs =>
      exists o r,
        objs st !! this = Some o /\ objs st !! rhs = Some r /\
        _length o <= _size o /\ _size o <= _length r /\
        _size o + _length r < 2 ^ 64
  end.

(** The state after [My_custom rhs{};]. *)
Definition after_default_custom : state :=
  match exec (My_custom_default "rhs") initial with
  | Ok st => st
  | Fault _ => initial
  end.

(** The state after [a += b] from [three_strings], then [My_string d("z");]:
    the allocation of [a] has two cells after its stored length. *)
Definition with_slack : state :=
  match exec (l <- literal "z" ;; My_string_cstr "d" l) after_first_append with
  | Ok st => st
  | Fault _ => initial
  end.

(** Every object has a stored capacity equal to its stored length. *)
Definition exact_capacity (st : state) : Prop :=
  map_Forall (fun _ o => _size o = _length o) (objs st).

(** * Properties *)

(** ** Running the monad *)

(** What a run that ends without a fault went through. *)

Lemma exec_Ok {A} (m : M A) st st' :
  exec m st = Ok st' <-> exists a, m st = Ok (a, st').
Proof.
  unfold exec. destruct (m st) as [[a s]|f]; split.
  - intros [= <-]. by exists a.
  - by intros [a' [= _ <-]].
  - done.
  - by intros [a' ?].
Qed.

Lemma bind_Ok {A B} (m : M A) (k : A -> M B) st r :
  bind m k st = Ok r <-> exists a st1, m st = Ok (a, st1) /\ k a st1 = Ok r.
Proof.
  unfold bind. destruct (m st) as [[a s]|f]; split.
  - intros H. by exists a, s.
  - by intros (a' & s' & [= <- <-] & H).
  - done.
  - by intros (a' & s' & ? & _).
Qed.

Lemma ret_Ok {A} (a b : A) st st' : ret a st = Ok (b, st') <-> b = a /\ st' = st.
Proof. unfold ret. split; [by intros [= <- <-]|by intros [-> ->]]. Qed.

Lemma get_Ok x st o st' :
  get x st = Ok (o, st') <-> objs st !! x = Some o /\ st' = st.
Proof.
  unfold get. destruct (objs st !! x) as [o'|]; split.
  - by intros [= <- <-].
  - by intros [[= <-] ->].
  - done.
  - by intros [? _].
Qed.

Lemma fld_Ok {A} (f : My_string -> A) x st a st' :
  fld f x st = Ok (a, st') <->
  exists o, objs st !! x = Some o /\ a = f o /\ st' = st.
Proof.
  unfold fld. rewrite bind_Ok. split.
  - intros (o & st1 & Hg & Hr). apply get_Ok in Hg as [Ho ->].
    unfold ret in Hr. injection Hr as <- <-. by exists o.
  - intros (o & Ho & -> & ->). exists o, st. split; [by apply get_Ok | done].
Qed.

Lemma assign_Ok {A} (upd : A -> My_string -> My_string) x v st u st' :
  assign upd x v st = Ok (u, st') <->
  exists o, objs st !! x = Some o /\
            st' = with_objs (<[x := upd v o]> (objs st)) st.
Proof.
  unfold assign. rewrite bind_Ok. split.
  - intros (o & st1 & Hg & Hp). apply get_Ok in Hg as [Ho ->].
    unfold put in Hp. injection Hp as <- <-. by exists o.
  - intros (o & Ho & ->). exists o, st. split; [by apply get_Ok |].
    unfold put. by destruct u.
Qed.

Lemma put_Ok x o st u st' :
  put x o st = Ok (u, st') <-> st' = with_objs (<[x := o]> (objs st)) st.
Proof. unfold put. destruct u. split; [by intros [= <-]|by intros ->]. Qed.

Lemma print_Ok line st u st' :
  print line st = Ok (u, st') <-> st' = with_cout (cout st ++ [line]) st.
Proof. unfold print. destruct u. split; [by intros [= <-]|by intros ->]. Qed.

Lemma new_char_Ok n c st p st' :
  new_char n c st = Ok (p, st') <->
  p = Some (length (mem st)) /\
  st' = with_mem (mem st ++ [Some (replicate (N.to_nat n) c)]) st.
Proof. unfold new_char. split; [by intros [= <- <-]|by intros [-> ->]]. Qed.

Lemma delete_arr_Ok p st u st' :
  delete_arr p st = Ok (u, st') <->
  (p = nullptr /\ st' = st) \/
  (exists b cells, p = Some b /\ mem st !! b = Some (Some cells) /\
                   st' = with_mem (<[b := None]> (mem st)) st).
Proof.
  unfold delete_arr, nullptr. destruct u. split.
  - destruct p as [b|].
    + destruct (mem st !! b) as [[cells|]|] eqn:E; try done.
      intros [= <-]. right. by exists b, cells.
    + intros [= <-]. by left.
  - intros [[-> ->]|(b & cells & -> & Hb & ->)]; [done|]. by rewrite Hb.
Qed.

Lemma memcpy_Ok dst off src n st u st' :
  memcpy dst off src n st = Ok (u, st') <->
  (n = 0 /\ st' = st) \/
  (exists s d from to,
      n <> 0 /\ src = Some s /\ dst = Some d /\
      mem st !! s = Some (Some from) /\ mem st !! d = Some (Some to) /\
      (N.to_nat n <= length from)%nat /\
      (N.to_nat off + N.to_nat n <= length to)%nat /\
      ~ (s = d /\ off < n) /\
      st' = with_mem (<[d := Some (overwrite (N.to_nat off)
                                     (take (N.to_nat n) from) to)]>
                        (mem st)) st).
Proof.
  unfold memcpy. destruct u. split.
  - case_decide as Hn; [intros [= <-]; by left|].
    destruct src as [s|], dst as [d|]; try done.
    destruct (mem st !! s) as [[from|]|] eqn:Es; try done;
      destruct (mem st !! d) as [[to|]|] eqn:Ed; try done.
    case_decide as Hb; [|done]. case_decide; [done|].
    intros [= <-]. right. exists s, d, from, to. destruct Hb. by split_and!.
  - intros [[-> ->]|(s & d & from & to & Hn & -> & -> & Hs & Hd & H1 & H2 & Ho & ->)].
    + done.
    + rewrite decide_False by done. rewrite Hs, Hd.
      rewrite decide_True by done. by rewrite decide_False by done.
Qed.

(** Only [get], [put], [assign] and [forget] touch the objects. *)

Lemma memcpy_objs dst off src n st u st' :
  memcpy dst off src n st = Ok (u, st') -> objs st' = objs st.
Proof.
  intros H. apply memcpy_Ok in H as [[_ ->]|(? & ? & ? & ? & H)]; [done|].
  by destruct H as (_ & _ & _ & _ & _ & _ & _ & _ & ->).
Qed.

Lemma delete_arr_objs p st u st' :
  delete_arr p st = Ok (u, st') -> objs st' = objs st.
Proof.
  intros H. by apply delete_arr_Ok in H as [[_ ->]|(? & ? & _ & _ & ->)].
Qed.

Lemma strlen_Ok p st n st' : strlen p st = Ok (n, st') -> st' = st.
Proof.
  unfold strlen. intros H. apply bind_Ok in H as (cells & st1 & Hd & H).
  unfold deref in Hd. destruct p as [b|]; [|done].
  destruct (mem st !! b) as [[c|]|]; try done. injection Hd as <- <-.
  destruct (c_str c); [|done]. by apply ret_Ok in H as [_ ->].
Qed.

Ltac invert H :=
  repeat
    match type of H with
    | bind _ _ _ = Ok _ =>
        let a := fresh "a" in let st1 := fresh "st" in let Hm := fresh "Hm" in
        apply bind_Ok in H as (a & st1 & Hm & H);
        first
          [ apply fld_Ok in Hm as (? & ? & -> & ->)
          | apply assign_Ok in Hm as (? & ? & ->)
          | apply new_char_Ok in Hm as (-> & ->)
          | apply put_Ok in Hm as ->
          | apply print_Ok in Hm as ->
          | apply ret_Ok in Hm as (-> & ->)
          | idtac ]
    end.

(** Forward execution. *)

Lemma bind_run {A B} (m : M A) (k : A -> M B) st a st1 :
  m st = Ok (a, st1) -> bind m k st = k a st1.
Proof. unfold bind. by intros ->. Qed.

Lemma fld_run {A} (f : My_string -> A) x st o :
  objs st !! x = Some o -> fld f x st = Ok (f o, st).
Proof. intros H. apply fld_Ok. by exists o. Qed.

Lemma assign_run {A} (upd : A -> My_string -> My_string) x v st o :
  objs st !! x = Some o ->
  assign upd x v st = Ok (tt, with_objs (<[x := upd v o]> (objs st)) st).
Proof. intros H. apply assign_Ok. by exists o. Qed.

Lemma delete_arr_run b cells st :
  mem st !! b = Some (Some cells) ->
  delete_arr (Some b) st = Ok (tt, with_mem (<[b := None]> (mem st)) st).
Proof. intros H. unfold delete_arr. by rewrite H. Qed.

Lemma delete_null_run st : delete_arr nullptr st = Ok (tt, st).
Proof. done. Qed.

Lemma memcpy_nothing dst off src st : memcpy dst off src 0 st = Ok (tt, st).
Proof. by apply memcpy_Ok; left. Qed.

Ltac tidy :=
  cbn [objs mem cout customs with_objs with_mem with_cout with_customs
       _init _length _size with_init with_length with_size].

Ltac tidy_all :=
  cbn [objs mem cout customs with_objs with_mem with_cout with_customs
       _init _length _size with_init with_length with_size] in *.

Ltac norm :=
  unfold with_objs, with_mem, with_cout, with_customs; tidy.

Ltac lookup :=
  tidy; rewrite ?lookup_insert_eq, ?lookup_insert_ne by congruence;
  first [eassumption | reflexivity].

Ltac step :=
  first
    [ erewrite bind_run by (apply fld_run; lookup)
    | erewrite bind_run by (apply assign_run; lookup)
    | erewrite bind_run by (eapply delete_arr_run; lookup)
    | erewrite bind_run by (apply delete_null_run)
    | erewrite bind_run by reflexivity ]; tidy.

(** ** Memory *)

Lemma overwrite_nil off (to : block) : overwrite off [] to = to.
Proof.
  unfold overwrite. cbn [length app]. rewrite Nat.add_0_r. apply take_drop.
Qed.

Lemma overwrite_all (src to : block) :
  length to = length src -> overwrite 0 src to = src.
Proof.
  intros H. unfold overwrite. cbn [take app Nat.add].
  rewrite drop_ge by lia. apply app_nil_r.
Qed.

Lemma length_overwrite off (src to : block) :
  (off + length src <= length to)%nat ->
  length (overwrite off src to) = length to.
Proof.
  intros H. unfold overwrite.
  rewrite !length_app, length_take, length_drop. lia.
Qed.

Lemma take_overwrite_le n off (src to : block) :
  (n <= off)%nat -> (off <= length to)%nat ->
  take n (overwrite off src to) = take n to.
Proof.
  intros H1 H2. unfold overwrite.
  rewrite take_app_le by (rewrite length_take; lia).
  rewrite take_take. f_equal. lia.
Qed.

Lemma drop_overwrite off (src to : block) :
  (off <= length to)%nat ->
  take (length src) (drop off (overwrite off src to)) = src.
Proof.
  intros H. unfold overwrite.
  rewrite drop_app_length' by (rewrite length_take; lia).
  apply take_app_length.
Qed.

Lemma insert_last {A} (h : list A) x y : <[length h := y]> (h ++ [x]) = h ++ [y].
Proof.
  replace (length h) with (length h + 0)%nat at 1 by lia.
  by rewrite insert_app_r.
Qed.

Lemma with_mem_id st : with_mem (mem st) st = st.
Proof. by destruct st. Qed.

Lemma length_release p (h : heap) : length (release p h) = length h.
Proof. destruct p; [apply length_insert|done]. Qed.

Lemma release_lookup p (h : heap) b :
  p <> Some b -> release p h !! b = h !! b.
Proof.
  intros Hne. destruct p as [b'|]; [|done]. cbn [release].
  apply list_lookup_insert_ne. congruence.
Qed.

Lemma buffer_eq st st' o :
  (forall b, _init o = Some b -> mem st' !! b = mem st !! b) ->
  buffer st' o = buffer st o.
Proof.
  intros H. unfold buffer. destruct (_init o) as [b|]; [|done].
  by rewrite (H b eq_refl).
Qed.

(** A released allocation other than the one of [o] leaves the buffer
    of [o] as it is. *)
Lemma buffer_release st o b :
  _init o <> Some b ->
  buffer (with_mem (<[b := None]> (mem st)) st) o = buffer st o.
Proof.
  intros Hne. unfold buffer. destruct (_init o) as [b'|]; [|done].
  tidy. rewrite list_lookup_insert_ne; [done|]. congruence.
Qed.

Lemma valid_allocated st o b :
  valid st o -> _init o = Some b -> (b < length (mem st))%nat.
Proof.
  unfold valid, buffer. intros Hv Hb. rewrite Hb in Hv.
  destruct (mem st !! b) as [[cells|]|] eqn:E; try done.
  by eapply lookup_lt_Some.
Qed.

(** A copy into the allocation made last. *)
Lemma memcpy_last st h (to from : block) off src n :
  mem st = h ++ [Some to] ->
  n = 0 \/ (exists s, src = Some s /\ h !! s = Some (Some from) /\
                      (N.to_nat n <= length from)%nat) ->
  (N.to_nat off + N.to_nat n <= length to)%nat ->
  memcpy (Some (length h)) off src n st
  = Ok (tt, with_mem (h ++ [Some (overwrite (N.to_nat off)
                                    (take (N.to_nat n) from) to)]) st).
Proof.
  intros Hm Hsrc Hb. destruct (decide (n = 0)) as [->|Hn].
  - apply memcpy_Ok. left. split; [done|].
    cbn [N.to_nat take]. rewrite overwrite_nil, <- Hm. by destruct st.
  - destruct Hsrc as [?|(s & -> & Hs & Hl)]; [done|].
    apply memcpy_Ok. right. exists s, (length h), from, to.
    assert (s < length h)%nat by (by eapply lookup_lt_Some).
    split_and!; try done.
    + rewrite Hm. by apply lookup_app_l_Some.
    + rewrite Hm. by apply list_lookup_middle.
    + intros [-> _]. lia.
    + rewrite Hm. f_equal. 
      replace (length h) with (length h + 0)%nat at 1 by lia.
      by rewrite insert_app_r.
Qed.

(** [if (_init != nullptr) delete[] _init;] on a valid object. *)
Lemma guarded_delete_run st t :
  valid st t ->
  (if decide (_init t <> nullptr) then delete_arr (_init t) else ret tt) st
  = Ok (tt, with_mem (release (_init t) (mem st)) st).
Proof.
  unfold valid, buffer. destruct (_init t) as [b|] eqn:E.
  - destruct (mem st !! b) as [[cells|]|] eqn:Em; try done. intros _.
    rewrite decide_True by done. by eapply delete_arr_run.
  - intros _. rewrite decide_False by (by intros []).
    cbn [release]. by rewrite with_mem_id.
Qed.

(** ** [strlen] and [print_str] *)

Lemma c_str_prefix cells s :
  c_str cells = Ok s ->
  take (length s) cells = Some <$> s /\ (length s < length cells)%nat.
Proof.
  revert s. induction cells as [|[c|] rest IH]; intros s; cbn [c_str]; try done.
  case_decide as Hz.
  - intros [= <-]. cbn. split; [done|lia].
  - destruct (c_str rest) as [s'|] eqn:E; [|done].
    intros [= <-]. destruct (IH s' eq_refl) as [IH1 IH2].
    cbn. split; [by rewrite IH1|lia].
Qed.

Lemma strlen_run st b cells s :
  mem st !! b = Some (Some cells) -> c_str cells = Ok s ->
  strlen (Some b) st = Ok (N.of_nat (length s), st).
Proof.
  intros Hb Hs. unfold strlen, bind, deref. rewrite Hb. by rewrite Hs.
Qed.

Lemma index_run st b cells i c :
  mem st !! b = Some (Some cells) -> cells !! i = Some (Some c) ->
  index (Some b) i st = Ok (c, st).
Proof. intros Hb Hc. unfold index, bind, deref. rewrite Hb. by rewrite Hc. Qed.

(** The loop reads the characters before the terminator, one by one, and
    stops at the terminator. *)
Lemma print_loop_run st b cells s count i :
  mem st !! b = Some (Some cells) -> c_str cells = Ok s ->
  (i + count = length s)%nat ->
  print_loop (Some b) i count st = Ok (drop i s, st).
Proof.
  intros Hb Hs. destruct (c_str_prefix _ _ Hs) as [Hpre Hlt].
  revert i. induction count as [|count IH]; intros i Hi; cbn [print_loop].
  - unfold ret. by rewrite drop_ge by lia.
  - erewrite bind_run by (by eapply strlen_run).
    rewrite decide_True by lia.
    destruct (lookup_lt_is_Some_2 s i) as [c Hc]; [lia|].
    erewrite bind_run.
    2:{ eapply index_run; [done|].
        rewrite <- (lookup_take_lt _ (length s)) by lia.
        rewrite Hpre. by rewrite list_lookup_fmap, Hc. }
    erewrite bind_run by (apply IH; lia).
    unfold ret. by rewrite (drop_S _ _ _ Hc).
Qed.

Lemma print_str_terminated st x name o b cells s :
  objs st !! x = Some o -> _init o = Some b ->
  mem st !! b = Some (Some cells) -> c_str cells = Ok s ->
  exec (print_str x name) st
  = Ok (with_cout (cout st ++ [(name ++ " : " ++ string_of_list_ascii s)%string]) st).
Proof.
  intros Ho Hi Hb Hs. unfold exec, print_str. step. rewrite Hi.
  rewrite decide_True by done.
  erewrite bind_run by (by eapply strlen_run).
  erewrite bind_run by (eapply print_loop_run; [done|done|lia]).
  done.
Qed.

Lemma print_str_null st x name o :
  objs st !! x = Some o -> _init o = nullptr ->
  exec (print_str x name) st = Ok (with_cout (cout st ++ [no_data name]) st).
Proof.
  intros Ho Hn. unfold exec, print_str. step. rewrite Hn.
  by rewrite decide_False by (by intros []).
Qed.

Lemma print_str_empty_buffer st x name o :
  objs st !! x = Some o -> buffer st o = Some [] ->
  exec (print_str x name) st = Fault OutOfBounds.
Proof.
  intros Ho Hb. unfold exec, print_str. step.
  unfold buffer in Hb. destruct (_init o) as [b|]; [|done].
  destruct (mem st !! b) as [[cells|]|] eqn:E; try done. injection Hb as ->.
  rewrite decide_True by done.
  unfold bind at 1. unfold strlen, bind, deref. by rewrite E.
Qed.

(** ** [resize] and [operator+=] *)

Lemma resize_Ok this n st u st' :
  resize this n st = Ok (u, st') ->
  exists o from,
    objs st !! this = Some o /\
    (_length o = 0 \/
     (buffer st o = Some from /\ (N.to_nat (_length o) <= length from)%nat)) /\
    (_length o <= size_add (_size o) n) /\
    st' = with_objs (<[this := with_init (Some (length (mem st))) o]> (objs st))
            (with_mem
               (release (_init o)
                  (mem st ++
                   [Some (overwrite 0 (take (N.to_nat (_length o)) from)
                            (replicate (N.to_nat (size_add (_size o) n))
                               None))])) st).
Proof.
  unfold resize. intros H. invert H. tidy_all. simplify_map_eq.
  rename x into o. exists o.
  apply memcpy_Ok in Hm as [[Hn ->]|(s & d & from & to & Hn & Hs & [= <-] & Hfrom & Hto & Hl1 & Hl2 & Ho & ->)];
    tidy_all; simplify_map_eq.
  - exists []. split; [done|]. split; [by left|].
    split; [rewrite Hn; apply N.le_0_l|].
    rewrite Hn. cbn [N.to_nat take]. rewrite overwrite_nil.
    apply delete_arr_Ok in H as [[Hp ->]|(b & cells & Hp & Hb & ->)];
      rewrite Hp; by norm.
  - assert (s < length (mem st))%nat as Hlt.
    { destruct (decide (s < length (mem st))%nat); [done|].
      apply lookup_lt_Some in Hfrom as Hlt. rewrite length_app in Hlt. cbn in Hlt.
      assert (s = length (mem st)) as -> by lia.
      exfalso. apply Ho. split; [done|lia]. }
    rewrite lookup_app_l in Hfrom by done. rewrite list_lookup_middle in Hto by done.
    injection Hto as <-. rewrite length_replicate in Hl2.
    exists from. split; [done|]. split.
    { right. unfold buffer. rewrite Hs. by rewrite Hfrom. }
    split; [lia|].
    rewrite insert_last in H.
    apply delete_arr_Ok in H as [[Hp ->]|(b & cells & Hp & Hb & ->)].
    + unfold nullptr in Hp. congruence.
    + rewrite Hs. rewrite Hs in Hp. injection Hp as <-. by norm.
Qed.

Lemma append_Ok this rhs st u st' :
  append this rhs st = Ok (u, st') ->
  exists o r st1 o1 r1,
    objs st !! this = Some o /\ objs st !! rhs = Some r /\
    (if decide (_size o <= _length r)
     then resize this (_length r) st = Ok (tt, st1)
     else st1 = st) /\
    objs st1 !! this = Some o1 /\ objs st1 !! rhs = Some r1 /\
    _length o1 = _length o /\ _size o1 = _size o /\
    _length r1 = _length r /\
    memcpy (_init o1) (_length o) (_init r1) (_length r) st1 = Ok (tt, st').
Proof.
  unfold append. intros H. invert H. rename x into o, x0 into r.
  exists o, r, st0.
  assert (exists o1 r1, objs st0 !! this = Some o1 /\ objs st0 !! rhs = Some r1 /\
     _length o1 = _length o /\ _size o1 = _size o /\ _length r1 = _length r /\
     (if decide (_size o <= _length r)
     then resize this (_length r) st = Ok (tt, st0)
     else st0 = st)) as (o1 & r1 & Ho1 & Hr1 & E1 & E2 & E3 & Hres).
  { case_decide.
    - destruct a. apply resize_Ok in Hm as Hm'.
      destruct Hm' as (o' & from & Ho' & _ & _ & ->). simplify_map_eq.
      tidy_all. destruct (decide (this = rhs)) as [->|Hne]; simplify_map_eq.
      + by eexists _, _.
      + by eexists _, _.
    - apply ret_Ok in Hm as [_ ->]. by exists o, r. }
  simplify_map_eq. exists x1, x3. destruct u. rewrite E1, E3 in H. by split_and!.
Qed.

Lemma append_appended st a b st' oa :
  objs st !! a = Some oa -> exec (append a b) st = Ok st' ->
  appended st' a b (_length oa) (_size oa).
Proof.
  intros Ha H. apply exec_Ok in H as [u H].
  apply append_Ok in H
    as (o & r & st1 & o1 & r1 & Ho & Hr & _ & Ho1 & Hr1 & E1 & E2 & E3 & H).
  simplify_map_eq.
  apply memcpy_Ok in H
    as [[Hn ->]|(s & d & from & to & Hn & Hs & Hd & Hfrom & Hto & Hl1 & Hl2 & Hov & ->)].
  - exists o1, r1. split_and!; try done. congruence.
  - exists o1, r1. tidy. split_and!; try done. intros _.
    assert (d < length (mem st1))%nat as Hdlt by (by eapply lookup_lt_Some).
    set (src := take (N.to_nat (_length r)) from).
    assert (length src = N.to_nat (_length r)) as Hsrc
        by (subst src; rewrite length_take; lia).
    exists (overwrite (N.to_nat (_length oa)) src to). split_and!.
    + unfold buffer. rewrite Hd. tidy. by rewrite list_lookup_insert_eq.
    + rewrite length_overwrite; lia.
    + rewrite E3, <- Hsrc. rewrite drop_overwrite by lia.
      unfold content, buffer. rewrite Hs. tidy.
      destruct (decide (s = d)) as [->|Hne].
      * rewrite list_lookup_insert_eq by done. simplify_eq.
        assert (_length r <= _length oa) by (apply N.le_ngt; naive_solver).
        rewrite E3. by rewrite take_overwrite_le by lia.
      * rewrite list_lookup_insert_ne by done. rewrite Hfrom. by rewrite E3.
Qed.

(** [a += b] does not grow the buffer when [b] is shorter than the stored
    capacity of [a], whatever [a] holds already; when the allocation of [a]
    has no room left for [b], the copy runs past its end. *)
Lemma append_overflow st a b oa ob cells :
  objs st !! a = Some oa -> objs st !! b = Some ob ->
  _length ob < _size oa -> _length ob <> 0 -> valid st ob ->
  buffer st oa = Some cells ->
  (length cells < N.to_nat (_length oa) + N.to_nat (_length ob))%nat ->
  exec (append a b) st = Fault OutOfBounds.
Proof.
  intros Ha Hb Hlt Hn Hv Hbuf Hroom. unfold exec, append. do 2 step.
  rewrite decide_False by lia. do 5 step.
  unfold memcpy. rewrite decide_False by done.
  unfold valid in Hv. unfold buffer in *.
  destruct (_init ob) as [s|]; [|done].
  destruct (_init oa) as [d|]; [|done].
  destruct (mem st !! s) as [[from|]|]; try done.
  destruct (mem st !! d) as [[to|]|]; try done.
  injection Hbuf as ->. rewrite decide_False; [done|]. lia.
Qed.

(** ** Frames *)

(** What an operation on [T] leaves of another object [S]. *)

Lemma delete_arr_frame p st u st' b :
  delete_arr p st = Ok (u, st') -> p <> Some b ->
  mem st' !! b = mem st !! b /\ length (mem st') = length (mem st) /\
  objs st' = objs st.
Proof.
  intros H Hne. apply delete_arr_Ok in H as [[_ ->]|(b' & cells & -> & _ & ->)].
  - done.
  - tidy. split_and!; [|apply length_insert|done].
    apply list_lookup_insert_ne. congruence.
Qed.

Lemma memcpy_frame dst off src n st u st' b :
  memcpy dst off src n st = Ok (u, st') -> dst <> Some b ->
  mem st' !! b = mem st !! b /\ objs st' = objs st.
Proof.
  intros H Hne.
  apply memcpy_Ok in H as [[_ ->]|(s & d & from & to & _ & _ & -> & H)];
    [done|].
  destruct H as (_ & _ & _ & _ & _ & ->). tidy. split; [|done].
  apply list_lookup_insert_ne. congruence.
Qed.

Lemma append_frame st T U st' S s t :
  objs st !! S = Some s -> objs st !! T = Some t -> S <> T ->
  (forall b, _init s = Some b ->
             (b < length (mem st))%nat /\ _init t <> Some b) ->
  exec (append T U) st = Ok st' ->
  objs st' !! S = Some s /\ buffer st' s = buffer st s.
Proof.
  intros Hs Ht Hne Hsep H. apply exec_Ok in H as [u H].
  apply append_Ok in H
    as (o & r & st1 & o1 & r1 & Ho & Hr & Hres & Ho1 & Hr1 & E1 & E2 & E3 & H).
  simplify_map_eq.
  assert (objs st1 !! S = Some s /\
          (forall b, _init s = Some b ->
                     mem st1 !! b = mem st !! b /\ _init o1 <> Some b))
    as [Hs1 Hm1].
  { case_decide.
    - apply resize_Ok in Hres as (o' & from & Ho' & _ & _ & ->).
      tidy_all. simplify_map_eq. split; [done|].
      intros b Hb. destruct (Hsep b Hb) as [Hlt Hnb]. tidy. split.
      + rewrite release_lookup by done. by rewrite lookup_app_l.
      + intros [= <-]. lia.
    - subst st1. simplify_map_eq. split; [done|].
      intros b Hb. by destruct (Hsep b Hb). }
  apply memcpy_Ok in H
    as [[Hn ->]|(s0 & d & from & to & Hn & Hs0 & Hd & Hfrom & Hto & Hl1 & Hl2 & Hov & ->)].
  - split; [done|]. apply buffer_eq. intros b Hb. by destruct (Hm1 b Hb).
  - tidy. split; [done|]. apply buffer_eq. intros b Hb. tidy.
    destruct (Hm1 b Hb) as [<- Hnb]. apply list_lookup_insert_ne. congruence.
Qed.

Section Frame.

Variables (st st' : state) (S T : string) (s t : My_string).
Hypothesis HS : objs st !! S = Some s.
Hypothesis HT : objs st !! T = Some t.
Hypothesis Hne : S <> T.
Hypothesis Hsep :
  forall b, _init s = Some b ->
            (b < length (mem st))%nat /\ _init t <> Some b.

Lemma copy_assign_frame U :
  exec (copy_assign T U) st = Ok st' ->
  objs st' !! S = Some s /\ buffer st' s = buffer st s.
Proof.
  intros H. apply exec_Ok in H as [u H]. unfold copy_assign in H.
  invert H. apply print_Ok in H as ->. simplify_map_eq.
  assert ((forall b, _init s = Some b -> mem st0 !! b = mem st !! b) /\
          length (mem st0) = length (mem st) /\ objs st0 = objs st)
    as (Hk0 & Hl0 & Ho0).
  { case_decide.
    - destruct (_init s) as [b|] eqn:Eb.
      + destruct (Hsep b eq_refl) as [_ Hnb].
        destruct (delete_arr_frame _ _ _ _ b Hm Hnb) as (? & ? & ?).
        split_and!; [|done|done]. by intros ? [= <-].
      + apply delete_arr_objs in Hm as Ho.
        split_and!; [done| |done].
        apply delete_arr_Ok in Hm as [[_ ->]|(? & ? & _ & _ & ->)];
          [done|apply length_insert].
    - by apply ret_Ok in Hm as [_ ->]. }
  tidy_all. rewrite Ho0 in *. simplify_map_eq.
  assert ((forall b, _init s = Some b -> mem st1 !! b = mem st !! b) /\
          objs st1 = <[T := with_init (Some (length (mem st0))) t]> (objs st))
    as (Hk1 & Ho1).
  { destruct (_init s) as [b|] eqn:Eb.
    - destruct (Hsep b eq_refl) as [Hlt _].
      eapply (memcpy_frame _ _ _ _ _ _ _ b) in Hm0 as [Hmem Hobj];
        [|intros [= <-]; lia].
      tidy_all. split; [|done]. intros ? [= <-]. rewrite Hmem.
      rewrite lookup_app_l by lia. by apply Hk0.
    - apply memcpy_objs in Hm0. by split. }
  rewrite Ho1 in *. simplify_map_eq. tidy. split; [by simplify_map_eq|].
  by apply buffer_eq.
Qed.

Lemma move_assign_frame U :
  U <> S -> exec (move_assign T U) st = Ok st' ->
  objs st' !! S = Some s /\ buffer st' s = buffer st s.
Proof.
  intros HU H. apply exec_Ok in H as [u H]. unfold move_assign in H.
  case_decide as HTU; [|by apply ret_Ok in H as [_ ->]].
  invert H. apply print_Ok in H as ->. simplify_map_eq.
  assert ((forall b, _init s = Some b -> mem st0 !! b = mem st !! b) /\
          objs st0 = objs st) as (Hk0 & Ho0).
  { apply delete_arr_objs in Hm as Ho. split; [|done].
    intros b Hb. destruct (Hsep b Hb) as [_ Hnb].
    by destruct (delete_arr_frame _ _ _ _ b Hm Hnb). }
  tidy_all. rewrite Ho0 in *. simplify_map_eq. split; [done|].
  by apply buffer_eq.
Qed.

Lemma dtor_frame :
  exec (My_string_dtor T) st = Ok st' ->
  objs st' !! S = Some s /\ buffer st' s = buffer st s.
Proof.
  intros H. apply exec_Ok in H as [u H]. unfold My_string_dtor in H.
  invert H. unfold forget in H. injection H as <-. simplify_map_eq.
  assert ((forall b, _init s = Some b -> mem st0 !! b = mem st !! b) /\
          objs st0 = objs st) as (Hk0 & Ho0).
  { apply delete_arr_objs in Hm as Ho. split; [|done].
    intros b Hb. destruct (Hsep b Hb) as [_ Hnb].
    by destruct (delete_arr_frame _ _ _ _ b Hm Hnb). }
  tidy. rewrite Ho0. split; [by simplify_map_eq|]. by apply buffer_eq.
Qed.

(** No change of [T] reaches the fields or the buffer of [S]. *)
Lemma mutates_frame m :
  mutates T S m -> exec m st = Ok st' ->
  objs st' !! S = Some s /\ buffer st' s = buffer st s.
Proof.
  intros [U|U|U HU|].
  - by eapply append_frame.
  - apply copy_assign_frame.
  - by apply move_assign_frame.
  - apply dtor_frame.
Qed.

End Frame.

(** ** C1: transfer *)

(** C1. After the move constructor or the move assignment from a source [S]
    into a distinct target [T], the target has the fields the source had
    (the buffer pointer is adopted, nothing is copied), its content is the
    content the source had, and the source is in the empty-marker state:
    null pointer, length 0, capacity 0, rendered as "No data available". *)
Theorem C1_transfer st S T s :
  objs st !! S = Some s -> S <> T ->
  (exists st',
      exec (My_string_move T S) st = Ok st' /\
      objs st' !! T = Some s /\
      content st' s = content st s /\
      objs st' !! S = Some empty_marker /\
      forall name,
        exec (print_str S name) st'
        = Ok (with_cout (cout st' ++ [no_data name]) st')) /\
  (forall t,
      objs st !! T = Some t -> valid st t -> separate t s ->
      exists st',
        exec (move_assign T S) st = Ok st' /\
        objs st' !! T = Some s /\
        content st' s = content st s /\
        objs st' !! S = Some empty_marker /\
        forall name,
          exec (print_str S name) st'
          = Ok (with_cout (cout st' ++ [no_data name]) st')).
Proof.
  intros Hs Hne. split.
  - eexists. split; [|split; [|split; [|split]]].
    + unfold exec, My_string_move. repeat step. reflexivity.
    + tidy. rewrite lookup_insert_eq. by destruct s.
    + done.
    + tidy. rewrite lookup_insert_ne by done. by rewrite lookup_insert_eq.
    + intros name. eapply print_str_null;
        [tidy; rewrite lookup_insert_ne by done; apply lookup_insert_eq|done].
  - intros t Ht Hv Hd.
    assert (exists st1, delete_arr (_init t) st = Ok (tt, st1) /\
                        objs st1 = objs st /\ cout st1 = cout st /\
                        buffer st1 s = buffer st s) as (st1 & Hdel & Ho1 & Hc1 & Hb1).
    { unfold valid in Hv. destruct (_init t) as [b|] eqn:Eb.
      - unfold buffer in Hv. rewrite Eb in Hv.
        destruct (mem st !! b) as [[cells|]|] eqn:Em; try done.
        eexists. split; [by eapply delete_arr_run|].
        split; [done|]. split; [done|]. apply buffer_release.
        unfold separate, nullptr in Hd. destruct Hd; congruence.
      - exists st. by repeat split. }
    eexists. split; [|split; [|split; [|split]]].
    + unfold exec, move_assign. rewrite decide_True by done.
      step. erewrite bind_run by exact Hdel.
      rewrite <- Ho1 in Hs, Ht. repeat step. reflexivity.
    + tidy. rewrite lookup_insert_ne by done. rewrite lookup_insert_ne by done.
      rewrite lookup_insert_ne by done.
      rewrite lookup_insert_eq. by destruct s.
    + unfold content. tidy. unfold buffer in *. tidy. by rewrite Hb1.
    + tidy. by rewrite lookup_insert_eq.
    + intros name. eapply print_str_null; [tidy; apply lookup_insert_eq|done].
Qed.

Lemma C1_transfer_witness :
  let s := {| _init := Some 1%nat; _length := 3; _size := 3 |} in
  let t := {| _init := Some 3%nat; _length := 1; _size := 1 |} in
  (objs two_strings !! "S" = Some s /\ "S" <> "T" /\
   objs two_strings !! "T" = Some t /\ valid two_strings t /\ separate t s) /\
  (exists st', exec (My_string_move "T" "S") two_strings = Ok st' /\
               objs st' !! "T" = Some s /\
               objs st' !! "S" = Some empty_marker) /\
  (exists st', exec (move_assign "T" "S") two_strings = Ok st' /\
               objs st' !! "T" = Some s /\
               objs st' !! "S" = Some empty_marker).
Proof.
  intros s t.
  assert (Hs : objs two_strings !! "S" = Some s) by (vm_compute; reflexivity).
  assert (Hne : "S" <> "T") by discriminate.
  assert (Ht : objs two_strings !! "T" = Some t) by (vm_compute; reflexivity).
  assert (Hv : valid two_strings t) by (vm_compute; lia).
  assert (Hd : separate t s) by (right; discriminate).
  destruct (C1_transfer two_strings "S" "T" s Hs Hne) as [Hc Ha].
  split; [by repeat split|]. split.
  - destruct Hc as (st' & H1 & H2 & _ & H3 & _). by exists st'.
  - destruct (Ha t Ht Hv Hd) as (st' & H1 & H2 & _ & H3 & _). by exists st'.
Defined.

(** ** C2: duplication *)

(** The cells a copy of [o] reads. *)
Lemma valid_source st o :
  valid st o ->
  exists from,
    content st o = take (N.to_nat (_length o)) from /\
    (N.to_nat (_length o) <= length from)%nat /\
    (_length o = 0 \/
     exists b, _init o = Some b /\ mem st !! b = Some (Some from)).
Proof.
  unfold valid, content, buffer. destruct (_init o) as [b|].
  - destruct (mem st !! b) as [[cells|]|] eqn:E; try done.
    intros Hl. exists cells. split_and!; [done|done|]. right. by exists b.
  - intros ->. exists []. split_and!; [done|cbn; lia|by left].
Qed.

(** The state a copy into a fresh allocation ends in has the properties of
    [duplicated]. *)
Lemma duplicated_intro st S T s h from st' :
  objs st !! S = Some s -> valid st s -> S <> T ->
  length h = length (mem st) ->
  (forall b, _init s = Some b -> h !! b = mem st !! b) ->
  content st s = take (N.to_nat (_length s)) from ->
  (N.to_nat (_length s) <= length from)%nat ->
  mem st' = h ++ [Some (take (N.to_nat (_length s)) from)] ->
  objs st' = <[T := {| _init := Some (length h);
                       _length := _length s; _size := _size s |}]> (objs st) ->
  duplicated st S T s st'.
Proof.
  intros Hs Hv Hne Hlen Hh Hc Hl Hm Ho.
  assert (Hb : buffer st' s = buffer st s).
  { apply buffer_eq. intros b Hb. rewrite Hm, <- (Hh b Hb).
    apply lookup_app_l. rewrite Hlen. by eapply valid_allocated. }
  assert (HS : objs st' !! S = Some s) by (rewrite Ho; by simplify_map_eq).
  split; [done|]. split; [done|].
  eexists. split; [rewrite Ho; apply lookup_insert_eq|]. tidy.
  split; [done|]. split; [done|].
  assert (Hbt : buffer st' {| _init := Some (length h); _length := _length s;
                              _size := _size s |}
                = Some (take (N.to_nat (_length s)) from)).
  { unfold buffer. tidy. rewrite Hm. by rewrite list_lookup_middle. }
  split_and!.
  - unfold content at 1. rewrite Hbt. tidy. rewrite take_take, Nat.min_id.
    unfold content. rewrite Hb. fold (content st s). done.
  - by rewrite Hbt.
  - intros Heq. symmetry in Heq. apply (valid_allocated _ _ _ Hv) in Heq. lia.
  - intros m st'' Hmut Hrun. rewrite <- Hb.
    eapply mutates_frame; [exact HS| |exact Hne| |exact Hmut|exact Hrun].
    + rewrite Ho. apply lookup_insert_eq.
    + intros b Hsb. tidy. pose proof (valid_allocated _ _ _ Hv Hsb).
      split; [rewrite Hm, length_app; cbn; lia|]. intros [= <-]. lia.
Qed.

(** C2. The copy constructor and the copy assignment from a source [S] into
    a distinct target [T] leave the fields and the buffer of [S] as they
    were, give [T] the content of [S] in a live allocation that is not the
    one of [S], and every change of [T] that follows (an append, an
    assignment, its destruction) leaves the fields and the buffer of [S] as
    they were. *)
Theorem C2_duplicate st S T s :
  objs st !! S = Some s -> valid st s -> S <> T ->
  (exists st',
      exec (My_string_copy T S) st = Ok st' /\ duplicated st S T s st') /\
  (forall t,
      objs st !! T = Some t -> valid st t -> separate t s ->
      exists st',
        exec (copy_assign T S) st = Ok st' /\ duplicated st S T s st').
Proof.
  intros Hs Hv Hne.
  destruct (valid_source _ _ Hv) as (from & Hc & Hl & Hfrom).
  assert (Hov : overwrite (N.to_nat 0) (take (N.to_nat (_length s)) from)
                  (replicate (N.to_nat (_length s)) None)
                = take (N.to_nat (_length s)) from).
  { apply overwrite_all. rewrite length_replicate, length_take. lia. }
  split.
  - eexists. split.
    + unfold exec, My_string_copy. do 6 step.
      erewrite bind_run.
      2:{ eapply (memcpy_last _ (mem st) _ from); [reflexivity| |].
          - destruct Hfrom as [?|(b & ? & ?)]; [by left|right; by exists b].
          - rewrite length_replicate. lia. }
      repeat step. reflexivity.
    + eapply (duplicated_intro _ _ _ _ (mem st) from); try done.
      tidy. by rewrite Hov.
  - intros t Ht Hvt Hd.
    eexists. split.
    + unfold exec, copy_assign. step.
      erewrite bind_run by (by apply guarded_delete_run).
      do 6 step.
      erewrite bind_run.
      2:{ eapply (memcpy_last _ (release (_init t) (mem st)) _ from);
            [reflexivity| |].
          - destruct Hfrom as [?|(b & Hb & Hm)]; [by left|right].
            exists b. split_and!; [done| |done].
            rewrite release_lookup; [done|].
            unfold separate, nullptr in Hd. destruct Hd; congruence.
          - rewrite length_replicate. lia. }
      repeat step. reflexivity.
    + eapply (duplicated_intro _ _ _ _ (release (_init t) (mem st)) from);
        try done.
      * apply length_release.
      * intros b Hb. apply release_lookup.
        unfold separate, nullptr in Hd. destruct Hd; congruence.
      * tidy. by rewrite Hov.
      * tidy. rewrite length_release.
        apply map_eq. intros x. 
        destruct (decide (x = T)) as [->|]; by simplify_map_eq.
Qed.

Lemma C2_duplicate_witness :
  let s := {| _init := Some 1%nat; _length := 3; _size := 3 |} in
  let t := {| _init := Some 3%nat; _length := 1; _size := 1 |} in
  (objs two_strings !! "S" = Some s /\ valid two_strings s /\ "S" <> "T" /\
   objs two_strings !! "T" = Some t /\ valid two_strings t /\ separate t s) /\
  (exists st', exec (My_string_copy "T" "S") two_strings = Ok st' /\
               duplicated two_strings "S" "T" s st') /\
  (exists st', exec (copy_assign "T" "S") two_strings = Ok st' /\
               duplicated two_strings "S" "T" s st') /\
  (exists st' st'',
      exec (copy_assign "T" "S") two_strings = Ok st' /\
      exec (append "T" "S") st' = Ok st'' /\
      objs st'' !! "S" = Some s /\
      buffer st'' s = Some [Some "a"; Some "b"; Some "c"]%char).
Proof.
  intros s t.
  assert (Hs : objs two_strings !! "S" = Some s) by (vm_compute; reflexivity).
  assert (Hvs : valid two_strings s) by (vm_compute; lia).
  assert (Hne : "S" <> "T") by discriminate.
  assert (Ht : objs two_strings !! "T" = Some t) by (vm_compute; reflexivity).
  assert (Hvt : valid two_strings t) by (vm_compute; lia).
  assert (Hd : separate t s) by (right; discriminate).
  destruct (C2_duplicate two_strings "S" "T" s Hs Hvs Hne) as [Hc Ha].
  split; [by repeat split|]. split; [exact Hc|].
  split; [exact (Ha t Ht Hvt Hd)|].
  destruct (Ha t Ht Hvt Hd) as (st' & Hrun & _ & _ & _ & _ & _ & _ & _ & _ & _ & Hframe).
  destruct (exec (append "T" "S") st') as [st''|f] eqn:Happ.
  - exists st', st''. split; [done|]. split; [done|].
    destruct (Hframe _ st'' (mutates_append "T" "S" "S") Happ) as [H1 H2].
    split; [done|]. rewrite H2. vm_compute. reflexivity.
  - exfalso. vm_compute in Hrun. injection Hrun as <-.
    vm_compute in Happ. discriminate.
Defined.

(** ** C3: self-assignment *)

(** The move assignment is guarded: on [x = std::move(x)] it does nothing. *)
Lemma move_assign_self st x : move_assign x x st = Ok (tt, st).
Proof. unfold move_assign. by rewrite decide_False by (by intros []). Qed.

(** The copy assignment is not: on [x = x] with a non-empty [x] it releases
    the buffer of [x], points [x] to a new allocation, and copies that
    allocation onto itself. *)
Lemma copy_assign_self st x o :
  objs st !! x = Some o -> valid st o -> _length o <> 0 ->
  exec (copy_assign x x) st = Fault Overlapping.
Proof.
  intros Ho Hv Hn. unfold exec, copy_assign. step.
  erewrite bind_run by (by apply guarded_delete_run).
  do 6 step. unfold bind at 1, memcpy. tidy.
  rewrite decide_False by done.
  rewrite list_lookup_middle by done.
  rewrite decide_True by (rewrite length_replicate; lia).
  rewrite decide_True; [done|]. split; [done|lia].
Qed.

(** C3. [S = S] through the copy assignment, for the [S] built from "abc":
    the operation has no guard and ends in a copy of the new allocation onto
    itself, the old buffer released; for the [E] built from "", the same
    assignment ends without a fault but has released the buffer of [E] and
    allocated another.  The move assignment onto itself leaves the state as
    it is. *)
Theorem C3_self_assignment :
  exec (copy_assign "S" "S") two_strings = Fault Overlapping /\
  (exists st' o o',
      exec (copy_assign "E" "E") empty_string = Ok st' /\
      objs empty_string !! "E" = Some o /\ objs st' !! "E" = Some o' /\
      _init o = Some 1%nat /\ mem st' !! 1%nat = Some None /\
      _init o' = Some 2%nat) /\
  (forall st x, move_assign x x st = Ok (tt, st)).
Proof.
  split; [|split].
  - vm_compute. reflexivity.
  - eexists _, _, _. split; [vm_compute; reflexivity|].
    split; [vm_compute; reflexivity|]. split; [vm_compute; reflexivity|].
    by vm_compute.
  - apply move_assign_self.
Qed.

(** ** C4: construction from a character array *)

(** C4. For an input array whose characters before the terminator are [s],
    so that [strlen] of it is [n = length s], the constructor allocates one
    new buffer of exactly [n] cells, which hold the [n] characters of [s]
    and no terminator, and sets both [_length] and [_size] to [n]. *)
Theorem C4_construct_from st this b cells s :
  mem st !! b = Some (Some cells) -> c_str cells = Ok s ->
  let n := N.of_nat (length s) in
  strlen (Some b) st = Ok (n, st) /\
  exec (My_string_cstr this (Some b)) st
  = Ok (with_objs
          (<[this := {| _init := Some (length (mem st));
                        _length := n; _size := n |}]> (objs st))
          (with_mem (mem st ++ [Some (Some <$> s)]) st)) /\
  length (Some <$> s : block) = N.to_nat n.
Proof.
  intros Hb Hs n. pose proof (strlen_run _ _ _ _ Hb Hs) as Hlen.
  destruct (c_str_prefix _ _ Hs) as [Hpre Hlt].
  split; [done|]. split; [|rewrite length_fmap; subst n; lia].
  unfold exec, My_string_cstr.
  erewrite bind_run by exact Hlen. erewrite bind_run by exact Hlen.
  step.
  erewrite bind_run.
  2:{ eapply (memcpy_last _ (mem st) _ cells); [reflexivity| |].
      - right. exists b. split_and!; [done|done|]. subst n. lia.
      - rewrite length_replicate. lia. }
  unfold put. norm. do 3 f_equal.
  subst n. rewrite Nat2N.id, Hpre. rewrite overwrite_all; [done|].
  by rewrite length_replicate, length_fmap.
Qed.

Lemma C4_construct_from_witness :
  let st := match exec (literal "abc") initial with
            | Ok st => st
            | Fault _ => initial
            end in
  let cells := [Some "a"; Some "b"; Some "c"; Some zero]%char in
  (mem st !! 0%nat = Some (Some cells) /\
   c_str cells = Ok ["a"; "b"; "c"]%char) /\
  exec (My_string_cstr "x" (Some 0%nat)) st
  = Ok (with_objs
          (<["x" := {| _init := Some 1%nat; _length := 3; _size := 3 |}]>
             (objs st))
          (with_mem (mem st ++ [Some [Some "a"; Some "b"; Some "c"]%char])
             st)).
Proof.
  intros st cells.
  assert (H1 : mem st !! 0%nat = Some (Some cells)) by reflexivity.
  assert (H2 : c_str cells = Ok ["a"; "b"; "c"]%char) by reflexivity.
  split; [done|].
  exact (proj1 (proj2 (C4_construct_from st "x" 0%nat cells _ H1 H2))).
Defined.

(** ** C5: the growth of the buffer in an append *)

(** C5. [S += T] for the [S] built from "abc" and the [T] built from "x":
    the capacity 3 of [S] does not hold the 3 + 1 characters, the guard
    [_size <= rhs._length] is false, the buffer is not grown, and the copy
    to position 3 of the allocation of 3 cells is out of bounds. *)
Theorem C5_append_out_of_bounds :
  (exists s t cells,
      objs two_strings !! "S" = Some s /\ objs two_strings !! "T" = Some t /\
      buffer two_strings s = Some cells /\ length cells = 3%nat /\
      _size s = 3 /\ _length s = 3 /\ _length t = 1 /\
      _size s < _length s + _length t /\ ~ _size s <= _length t) /\
  exec (append "S" "T") two_strings = Fault OutOfBounds.
Proof.
  split.
  - eexists _, _, _. split; [vm_compute; reflexivity|].
    split; [vm_compute; reflexivity|]. split; [vm_compute; reflexivity|].
    cbn. split_and!; try done. lia.
  - vm_compute. reflexivity.
Qed.

(** ** C6: the append scenario *)

(** C6. In [custom_append], after [lhs += rhs] the buffer of [lhs] is an
    allocation of 30 cells that holds "first Element second addition " and
    no terminator, with [_length] and [_size] still 14; [print_str] then
    runs [strlen] on it, which reads past the end of the allocation: the
    scenario, and [main], end in that fault and no line for [lhs] is
    written. *)
Theorem C6_append_scenario :
  (exists st o,
      exec custom_append_prefix initial = Ok st /\
      objs st !! "lhs" = Some o /\ _length o = 14 /\ _size o = 14 /\
      buffer st o
      = Some (Some <$> list_ascii_of_string "first Element second addition ") /\
      cout st = ["custom append (My_string)"] /\
      exec (print_str "lhs" "lhs") st = Fault OutOfBounds) /\
  exec custom_append initial = Fault OutOfBounds /\
  exec main initial = Fault OutOfBounds.
Proof.
  split; [|split].
  - eexists _, _. split; [vm_compute; reflexivity|].
    split; [vm_compute; reflexivity|]. by vm_compute.
  - vm_compute. reflexivity.
  - vm_compute. reflexivity.
Qed.

(** ** C7: transfer through a member *)

(** C7. The move constructor of [My_custom], from a default-constructed
    source, leaves in the member of the target the value the member of the
    source had, "default"; it gets there through the move assignment of
    [Std_string], whose line is written between the line of the default
    construction of the member and the line of the constructor, and neither
    the copy assignment of [Std_string] nor the copy constructor of
    [My_custom] writes a line. *)
Theorem C7_composition_transfer (moved_from : string -> string) st this rhs :
  this <> rhs ->
  exists st1 st2 src,
    exec (My_custom_default rhs) st = Ok st1 /\
    customs st1 !! rhs = Some src /\
    _std_string (_str src) = "default"%string /\
    exec (My_custom_move moved_from this rhs) st1 = Ok st2 /\
    customs st2 !! this = Some src /\
    customs st2 !! rhs
    = Some {| _str := {| _std_string := moved_from "default"%string |} |} /\
    cout st2 = cout st1 ++ ["Std_string - Default constructor called";
                            "Std_string - move assignation called";
                            "My_custom - move constructor called"]%string /\
    forall line,
      line ∈ drop (length (cout st1)) (cout st2) ->
      line <> "Std_string - Copy assignation called"%string /\
      line <> "My_custom-move failed!"%string.
Proof.
  intros Hne.
  eexists _, _, _. split; [reflexivity|]. tidy.
  split; [apply lookup_insert_eq|]. split; [reflexivity|].
  split.
  { unfold exec, My_custom_move, Std_string_default, Std_string_move_assign,
      bind, put_custom, get_custom, print. tidy.
    rewrite lookup_insert_ne by done. rewrite lookup_insert_eq.
    reflexivity. }
  norm. unfold My_custom_default, Std_string_default, bind, put_custom, print.
  norm. cbn [_str _std_string].
  split; [apply lookup_insert_eq|].
  split; [rewrite lookup_insert_ne by done; apply lookup_insert_eq|].
  set (l := (cout st ++ _) ++ _).
  assert (Hl : ((l ++ ["Std_string - Default constructor called"]) ++
                ["Std_string - move assignation called"]) ++
               ["My_custom - move constructor called"]
               = l ++ ["Std_string - Default constructor called";
                       "Std_string - move assignation called";
                       "My_custom - move constructor called"]%string)
    by (by rewrite <- !app_assoc).
  rewrite Hl. split; [done|].
  intros line. rewrite drop_app_length.
  rewrite !elem_of_cons, elem_of_nil. intros [->|[->|[->|[]]]]; by split.
Qed.

Lemma C7_composition_transfer_witness :
  "lhs" <> "rhs" /\
  exists st1 st2,
    exec (My_custom_default "rhs") initial = Ok st1 /\
    exec (My_custom_move (fun _ => ""%string) "lhs" "rhs") st1 = Ok st2 /\
    customs st2 !! "lhs" = Some {| _str := {| _std_string := "default" |} |} /\
    cout st2 = ["Std_string - Default constructor called";
                "My_custom-Default constructor called";
                "Std_string - Default constructor called";
                "Std_string - move assignation called";
                "My_custom - move constructor called"]%string.
Proof.
  assert (Hne : "lhs" <> "rhs") by discriminate.
  split; [done|].
  destruct (C7_composition_transfer (fun _ => ""%string) initial "lhs" "rhs" Hne)
    as (st1 & st2 & src & H1 & H2 & H3 & H4 & H5 & H6 & H7 & _).
  exists st1, st2. split; [done|]. split; [done|].
  injection H1 as <-. split.
  - rewrite H5. f_equal. vm_compute in H2. by injection H2 as <-.
  - rewrite H7. reflexivity.
Defined.

(** ** C8: the capacity invariant *)

Ltac cap :=
  repeat match goal with
    | H : map_Forall _ ?m, L : ?m !! _ = Some _ |- _ =>
        apply (map_Forall_lookup_1 _ _ _ _ H) in L; cbn beta in L
    end.

Ltac finish :=
  tidy; rewrite ?insert_insert_eq;
  repeat (apply map_Forall_insert_2; [tidy; cap; first [done | lia]|]);
  done.

Lemma capacity_preserved op st st' :
  capacity_ok st -> exec (perform op) st = Ok st' -> capacity_ok st'.
Proof.
  unfold capacity_ok. intros Hc H. apply exec_Ok in H as [u H].
  destruct op as [this|this rhs|this rhs|this rhs|this rhs|this rhs|this rhs];
    cbn [perform] in H.
  - unfold My_string_default in H. invert H. apply print_Ok in H as ->. tidy.
    by apply map_Forall_insert_2.
  - unfold My_string_cstr in H. invert H.
    apply strlen_Ok in Hm as Hst. subst st0.
    apply strlen_Ok in Hm0 as Hst. subst st1.
    rewrite Hm in Hm0. injection Hm0 as <-.
    apply memcpy_objs in Hm1 as Ho. apply put_Ok in H as ->. tidy.
    rewrite Ho. tidy. apply map_Forall_insert_2; [|done]. tidy. lia.
  - unfold My_string_copy in H. invert H. apply print_Ok in H as ->.
    tidy_all. apply memcpy_objs in Hm as Ho. tidy_all. simplify_map_eq.
    rewrite Ho. apply map_Forall_insert_2; [|done]. tidy. by cap.
  - unfold My_string_move in H. invert H. apply print_Ok in H as ->.
    tidy_all. simplify_map_eq. finish.
  - unfold copy_assign in H. invert H. apply print_Ok in H as ->.
    apply memcpy_objs in Hm0 as Ho1.
    assert (objs st0 = objs st) as Ho0.
    { case_decide; [by eapply delete_arr_objs|by apply ret_Ok in Hm as [_ ->]]. }
    clear Hm Hm0. tidy_all. rewrite Ho1 in *. tidy_all. rewrite Ho0 in *.
    destruct (decide (this = rhs)) as [->|Hne]; simplify_map_eq; finish.
  - unfold move_assign in H. case_decide as Hne.
    + invert H. apply print_Ok in H as ->.
      apply delete_arr_objs in Hm as Ho. clear Hm.
      tidy_all. rewrite Ho in *. simplify_map_eq. finish.
    + by apply ret_Ok in H as [_ ->].
  - apply append_Ok in H
      as (o & r & st1 & o1 & r1 & Ho & Hr & Hres & Ho1 & Hr1 & E1 & E2 & E3 & H).
    apply memcpy_objs in H as ->.
    case_decide; [|by subst st1].
    apply resize_Ok in Hres as (o' & from & Ho' & _ & _ & ->).
    simplify_map_eq. finish.
Qed.

Lemma dtor_of_empty st x :
  objs st !! x = Some empty_marker ->
  exec (My_string_dtor x) st
  = Ok (with_objs (delete x (objs st))
          (with_cout (cout st ++ ["DESTRUCTOR has been called"]) st)).
Proof.
  intros H. unfold exec, My_string_dtor. step. cbn [empty_marker _init].
  by repeat step.
Qed.

(** C8. Each operation of [My_string] that ends without a fault takes a
    state in which every object has [_length <= _size] to one in which every
    object has; and the source of a move constructor or move assignment is
    left with a null pointer, length 0 and capacity 0, so that its
    destructor releases nothing and runs without a fault. *)
Theorem C8_capacity_invariant op st st' :
  capacity_ok st -> exec (perform op) st = Ok st' ->
  capacity_ok st' /\
  forall this rhs,
    this <> rhs ->
    op = Move_construct this rhs \/ op = Move_assign this rhs ->
    objs st' !! rhs = Some empty_marker /\
    exec (My_string_dtor rhs) st'
    = Ok (with_objs (delete rhs (objs st'))
            (with_cout (cout st' ++ ["DESTRUCTOR has been called"]) st')).
Proof.
  intros Hc H. split; [by eapply capacity_preserved|].
  intros this rhs Hne Hop.
  assert (objs st' !! rhs = Some empty_marker) as Hr.
  { apply exec_Ok in H as [u H]. destruct Hop as [-> | ->]; cbn [perform] in H.
    - unfold My_string_move in H. invert H. apply print_Ok in H as ->.
      tidy_all. by simplify_map_eq.
    - unfold move_assign in H. rewrite decide_True in H by done.
      invert H. apply print_Ok in H as ->.
      apply delete_arr_objs in Hm as Ho. clear Hm.
      tidy_all. rewrite Ho in *. by simplify_map_eq. }
  split; [done|]. by apply dtor_of_empty.
Qed.

Lemma C8_capacity_invariant_witness :
  (capacity_ok two_strings /\
   exec (perform (Move_assign "T" "S")) two_strings = Ok after_move_assign) /\
  capacity_ok after_move_assign /\
  objs after_move_assign !! "S" = Some empty_marker.
Proof.
  assert (H1 : capacity_ok two_strings).
  { unfold capacity_ok.
    replace (objs two_strings)
      with (<["T" := {| _init := Some 3%nat; _length := 1; _size := 1 |}]>
              (<["S" := {| _init := Some 1%nat; _length := 3; _size := 3 |}]>
                 (∅ : gmap string My_string)))
      by (vm_compute; reflexivity).
    repeat (apply map_Forall_insert_2; [cbn; lia|]). apply map_Forall_empty. }
  assert (H2 : exec (perform (Move_assign "T" "S")) two_strings
               = Ok after_move_assign) by (vm_compute; reflexivity).
  destruct (C8_capacity_invariant _ _ _ H1 H2) as [H3 H4].
  split; [done|]. split; [done|].
  apply (H4 "T" "S"); [discriminate|by right].
Defined.

(** ** C9: the stored length and capacity after an append *)

(** C9. [a += b] leaves the stored [_length] and [_size] of [a] as they
    were, although the content of [b] is now in the buffer of [a] from
    position [_length] on; so a second append [a += c] writes from that same
    position on, over what the first one wrote. *)
Theorem C9_append_keeps_fields st a b st' oa :
  objs st !! a = Some oa -> exec (append a b) st = Ok st' ->
  appended st' a b (_length oa) (_size oa) /\
  forall c st'',
    exec (append a c) st' = Ok st'' ->
    appended st'' a c (_length oa) (_size oa).
Proof.
  intros Ha H. pose proof (append_appended _ _ _ _ _ Ha H) as H1.
  split; [done|]. intros c st'' H'.
  destruct H1 as (oa' & _ & Ha' & _ & <- & <- & _).
  by eapply append_appended.
Qed.

Lemma C9_append_keeps_fields_witness :
  let oa := {| _init := Some 1%nat; _length := 2; _size := 2 |} in
  (objs three_strings !! "a" = Some oa /\
   exec (append "a" "b") three_strings = Ok after_first_append) /\
  appended after_first_append "a" "b" 2 2 /\
  appended after_second_append "a" "c" 2 2.
Proof.
  intros oa.
  assert (H1 : objs three_strings !! "a" = Some oa) by (vm_compute; reflexivity).
  assert (H2 : exec (append "a" "b") three_strings = Ok after_first_append)
    by (vm_compute; reflexivity).
  split; [done|].
  destruct (C9_append_keeps_fields three_strings "a" "b" _ oa H1 H2) as [H3 H4].
  split; [exact H3|]. apply (H4 "c" after_second_append).
  vm_compute. reflexivity.
Defined.

(** The two appends of the example above, cell by cell: the buffer of [a]
    holds "abcd" after [a += b] and "abxy" after [a += c], and [a] still
    has length 2 and capacity 2. *)
Example append_twice :
  (exists o, objs after_first_append !! "a" = Some o /\
             _length o = 2 /\ _size o = 2 /\
             buffer after_first_append o
             = Some [Some "a"; Some "b"; Some "c"; Some "d"]%char) /\
  exec (append "a" "c") after_first_append = Ok after_second_append /\
  (exists o, objs after_second_append !! "a" = Some o /\
             _length o = 2 /\ _size o = 2 /\
             buffer after_second_append o
             = Some [Some "a"; Some "b"; Some "x"; Some "y"]%char).
Proof.
  split; [|split].
  - eexists. split; [vm_compute; reflexivity|]. by vm_compute.
  - vm_compute. reflexivity.
  - eexists. split; [vm_compute; reflexivity|]. by vm_compute.
Qed.

(** ** C10: duplication of an empty object *)

Lemma empty_allocation_intro st' T t' :
  objs st' !! T = Some t' -> _init t' <> nullptr -> buffer st' t' = Some [] ->
  empty_allocation st' T.
Proof.
  intros Ht Hn Hb. exists t'. split_and!; try done. intros name.
  rewrite (print_str_empty_buffer _ _ _ _ Ht Hb). by split.
Qed.

(** C10. A copy from a source in the empty-marker state (null pointer,
    length 0) reads no byte through the null pointer, and gives the target
    a non-null pointer to a live allocation of no cells: the target is not
    in the empty-marker state, and [print_str] on it does not report
    "No data available" but runs [strlen] on the empty allocation. *)
Theorem C10_duplicate_of_empty st S T s :
  objs st !! S = Some s -> _init s = nullptr -> _length s = 0 ->
  (forall p off st0, memcpy p off (_init s) (_length s) st0 = Ok (tt, st0)) /\
  (exists st',
      exec (My_string_copy T S) st = Ok st' /\ empty_allocation st' T) /\
  (forall t,
      objs st !! T = Some t -> valid st t ->
      exists st',
        exec (copy_assign T S) st = Ok st' /\ empty_allocation st' T).
Proof.
  intros Hs Hi Hl. split; [|split].
  - intros p off st0. rewrite Hl. apply memcpy_nothing.
  - eexists. split.
    + unfold exec, My_string_copy. do 6 step. rewrite Hl.
      erewrite bind_run by apply memcpy_nothing.
      repeat step. reflexivity.
    + eapply empty_allocation_intro.
      * tidy. apply lookup_insert_eq.
      * done.
      * unfold buffer. tidy. by rewrite list_lookup_middle.
  - intros t Ht Hv.
    assert (exists n, exec (copy_assign T S) st
      = Ok (with_cout (cout st ++ ["COPY assignment has been called"])
             (with_objs (<[T := {| _init := Some (length (mem st));
                                   _length := 0; _size := n |}]> (objs st))
                (with_mem (release (_init t) (mem st) ++ [Some []]) st))))
      as [n Hrun].
    { exists (_size s). unfold exec, copy_assign. step.
      erewrite bind_run by (by apply guarded_delete_run).
      destruct (decide (S = T)) as [->|Hne].
      - simplify_map_eq. do 6 step. rewrite Hl.
        erewrite bind_run by apply memcpy_nothing.
        repeat step. norm. rewrite Hl, length_release.
        by rewrite !insert_insert_eq.
      - do 6 step. rewrite Hl.
        erewrite bind_run by apply memcpy_nothing.
        repeat step. norm. rewrite Hl, length_release.
        by rewrite !insert_insert_eq. }
    eexists. split; [exact Hrun|].
    eapply empty_allocation_intro.
    + tidy. apply lookup_insert_eq.
    + done.
    + unfold buffer. tidy. rewrite list_lookup_middle; [done|].
      by rewrite length_release.
Qed.

Lemma C10_duplicate_of_empty_witness :
  let t := {| _init := Some 1%nat; _length := 1; _size := 1 |} in
  (objs empty_and_full !! "S" = Some empty_marker /\
   _init empty_marker = nullptr /\ _length empty_marker = 0 /\
   objs empty_and_full !! "T" = Some t /\ valid empty_and_full t) /\
  (exists st', exec (My_string_copy "T" "S") empty_and_full = Ok st' /\
               empty_allocation st' "T") /\
  (exists st', exec (copy_assign "T" "S") empty_and_full = Ok st' /\
               empty_allocation st' "T").
Proof.
  intros t.
  assert (Hs : objs empty_and_full !! "S" = Some empty_marker)
    by (vm_compute; reflexivity).
  assert (Ht : objs empty_and_full !! "T" = Some t) by (vm_compute; reflexivity).
  assert (Hv : valid empty_and_full t) by (vm_compute; lia).
  destruct (C10_duplicate_of_empty empty_and_full "S" "T" empty_marker
              Hs eq_refl eq_refl) as (_ & Hc & Ha).
  split; [by repeat split|]. split; [exact Hc|exact (Ha t Ht Hv)].
Defined.
(** * Further properties *)

(** ** The ownership invariant *)

Lemma separate_sym o1 o2 : separate o1 o2 -> separate o2 o1.
Proof.
  unfold separate, nullptr. intros [H|H].
  - destruct (_init o2) eqn:E; [right; congruence|by left].
  - right. congruence.
Qed.

Lemma valid_null st o : _init o = nullptr -> _length o = 0 -> valid st o.
Proof. unfold valid. by intros -> ->. Qed.

Lemma carries_refl h o : carries h h o.
Proof. intros b cells _ H. by exists cells. Qed.

Lemma carries_trans h1 h2 h3 o :
  carries h1 h2 o -> carries h2 h3 o -> carries h1 h3 o.
Proof.
  intros H1 H2 b cells Hb Hc. destruct (H1 b cells Hb Hc) as (c2 & Hc2 & Hl2).
  destruct (H2 b c2 Hb Hc2) as (c3 & Hc3 & Hl3). exists c3. split; [done|lia].
Qed.

Lemma carries_valid st st' o o' :
  valid st o -> carries (mem st) (mem st') o ->
  _init o' = _init o -> _length o' = _length o -> valid st' o'.
Proof.
  unfold valid, buffer. intros Hv Hc Ei El. rewrite Ei, El.
  destruct (_init o) as [b|] eqn:Eb; [|done].
  destruct (mem st !! b) as [[cells|]|] eqn:Em; try done.
  destruct (Hc b cells Eb Em) as (cells' & -> & Hl). lia.
Qed.

Lemma new_char_carries n c st p st1 o :
  new_char n c st = Ok (p, st1) -> carries (mem st) (mem st1) o.
Proof.
  intros H. apply new_char_Ok in H as [_ ->]. intros b cells _ Hb.
  exists cells. split; [|done]. tidy. by apply lookup_app_l_Some.
Qed.

Lemma delete_arr_carries p st u st1 o :
  delete_arr p st = Ok (u, st1) -> _init o <> p \/ p = nullptr ->
  carries (mem st) (mem st1) o.
Proof.
  intros H Hne. apply delete_arr_Ok in H as [[_ ->]|(b' & c & -> & _ & ->)].
  - apply carries_refl.
  - intros b cells Hb Hc. exists cells. split; [|done]. tidy.
    rewrite list_lookup_insert_ne; [done|].
    unfold nullptr in Hne. destruct Hne; congruence.
Qed.

Lemma memcpy_carries dst off src n st u st1 o :
  memcpy dst off src n st = Ok (u, st1) -> carries (mem st) (mem st1) o.
Proof.
  intros H.
  apply memcpy_Ok in H
    as [[_ ->]|(s & d & from & to & Hn & -> & -> & Hs & Hd & Hl1 & Hl2 & _ & ->)].
  - apply carries_refl.
  - intros b cells Hb Hc. tidy. destruct (decide (b = d)) as [->|Hne].
    + eexists. split.
      * apply list_lookup_insert_eq. by eapply lookup_lt_Some.
      * simplify_eq. rewrite length_overwrite; [done|].
        rewrite length_take. lia.
    + exists cells. split; [|done]. by rewrite list_lookup_insert_ne.
Qed.

(** A new allocation of [n] cells, for an object of length at most [n]. *)
Lemma valid_new st h (cells : block) b len sz :
  mem st = h ++ [Some cells] -> b = length h ->
  (N.to_nat len <= length cells)%nat ->
  valid st {| _init := Some b; _length := len; _size := sz |}.
Proof.
  intros Hm -> Hl. unfold valid, buffer. tidy.
  rewrite Hm. by rewrite list_lookup_middle.
Qed.

(** The objects of [st'] are those of [st] but for [x] and [y]. *)
Lemma owned_update st st' x y ox oy :
  owned st ->
  objs st' = <[x := ox]> (<[y := oy]> (objs st)) ->
  (forall z oz, z <> x -> z <> y -> objs st !! z = Some oz ->
                carries (mem st) (mem st') oz) ->
  valid st' ox -> (x <> y -> valid st' oy /\ separate ox oy) ->
  (forall z oz, z <> x -> z <> y -> objs st !! z = Some oz ->
                separate ox oz /\ (x <> y -> separate oy oz)) ->
  owned st'.
Proof.
  intros [Hv Hs] Ho Hc Hvx Hy Hsep. split.
  - intros z oz. rewrite Ho. intros Hz.
    destruct (decide (z = x)) as [->|Hzx]; [by simplify_map_eq|].
    rewrite lookup_insert_ne in Hz by done.
    destruct (decide (z = y)) as [->|Hzy].
    + simplify_map_eq. by apply Hy.
    + rewrite lookup_insert_ne in Hz by done.
      eapply carries_valid; [by eapply Hv|by eapply Hc|done|done].
  - intros z1 z2 o1 o2 Hne. rewrite Ho. intros H1 H2.
    destruct (decide (z1 = x)) as [->|H1x], (decide (z2 = x)) as [->|H2x];
      try done.
    + rewrite lookup_insert_eq in H1. injection H1 as <-.
      rewrite lookup_insert_ne in H2 by done.
      destruct (decide (z2 = y)) as [->|H2y].
      * rewrite lookup_insert_eq in H2. injection H2 as <-. by apply Hy.
      * rewrite lookup_insert_ne in H2 by done. by apply (Hsep z2).
    + rewrite lookup_insert_eq in H2. injection H2 as <-.
      rewrite lookup_insert_ne in H1 by done. apply separate_sym.
      destruct (decide (z1 = y)) as [->|H1y].
      * rewrite lookup_insert_eq in H1. injection H1 as <-. by apply Hy.
      * rewrite lookup_insert_ne in H1 by done. by apply (Hsep z1).
    + rewrite lookup_insert_ne in H1, H2 by done.
      destruct (decide (z1 = y)) as [->|H1y], (decide (z2 = y)) as [->|H2y];
        try done.
      * rewrite lookup_insert_eq in H1. injection H1 as <-.
        rewrite lookup_insert_ne in H2 by done.
        apply (Hsep z2 o2); first [done|congruence].
      * rewrite lookup_insert_eq in H2. injection H2 as <-.
        rewrite lookup_insert_ne in H1 by done. apply separate_sym.
        apply (Hsep z1 o1); first [done|congruence].
      * rewrite lookup_insert_ne in H1, H2 by done.
        exact (Hs z1 z2 o1 o2 Hne H1 H2).
Qed.

Lemma owned_update1 st st' x ox :
  owned st ->
  objs st' = <[x := ox]> (objs st) ->
  (forall z oz, z <> x -> objs st !! z = Some oz ->
                carries (mem st) (mem st') oz /\ separate ox oz) ->
  valid st' ox ->
  owned st'.
Proof.
  intros Ho Eo Hz Hv.
  apply (owned_update st st' x x ox ox Ho); try done.
  - by rewrite insert_insert_eq.
  - intros z oz H1 _ H2. by destruct (Hz z oz H1 H2).
  - intros z oz H1 _ H2. split; [by destruct (Hz z oz H1 H2)|done].
Qed.

(** A pointer to an allocation made after [st] is apart from the valid
    objects of [st]. *)
Lemma separate_fresh st ox oz b :
  valid st oz -> _init ox = Some b -> (length (mem st) <= b)%nat ->
  separate ox oz.
Proof.
  intros Hv Hb Hl. right. rewrite Hb. intros Heq. symmetry in Heq.
  apply (valid_allocated _ _ _ Hv) in Heq. lia.
Qed.

Lemma default_owned st this st' :
  owned st -> exec (My_string_default this) st = Ok st' -> owned st'.
Proof.
  intros Ho H. apply exec_Ok in H as [u H]. unfold My_string_default in H.
  invert H. apply print_Ok in H as ->.
  eapply (owned_update1 st _ this); [done|reflexivity| |].
  - intros z oz _ _. split; [apply carries_refl|by left].
  - by apply valid_null.
Qed.

Lemma cstr_owned st this rhs st' :
  owned st -> exec (My_string_cstr this rhs) st = Ok st' -> owned st'.
Proof.
  intros Ho H. apply exec_Ok in H as [u H]. unfold My_string_cstr in H.
  invert H. apply strlen_Ok in Hm as Hst. subst st0.
  apply strlen_Ok in Hm0 as Hst. subst st1.
  rewrite Hm in Hm0. injection Hm0 as <-.
  apply put_Ok in H as ->.
  apply memcpy_objs in Hm1 as Hobj. 
  eapply (owned_update1 st _ this); [done|tidy; by rewrite Hobj| |].
  - intros z oz _ Hz. split.
    + eapply carries_trans;
        [exact (new_char_carries a (Some zero) st _ _ oz eq_refl)
        |exact (memcpy_carries _ _ _ _ _ _ _ oz Hm1)].
    + eapply separate_fresh; [by eapply (proj1 Ho)|reflexivity|done].
  - eapply carries_valid;
      [|exact (memcpy_carries _ _ _ _ _ _ _ _ Hm1)|reflexivity|reflexivity].
    eapply valid_new; [reflexivity|reflexivity|]. rewrite length_replicate. lia.
Qed.

Lemma separate_init o1 o1' o2 :
  _init o1' = _init o1 -> separate o1 o2 -> separate o1' o2.
Proof. unfold separate. by intros ->. Qed.

Lemma copy_owned st this rhs st' :
  owned st -> exec (My_string_copy this rhs) st = Ok st' -> owned st'.
Proof.
  intros Ho H. apply exec_Ok in H as [u H]. unfold My_string_copy in H.
  invert H. apply print_Ok in H as ->. tidy_all. simplify_map_eq.
  rename x into r. apply memcpy_objs in Hm as Hobj. tidy_all.
  eapply (owned_update1 st _ this); [done|tidy; by rewrite Hobj| |].
  - intros z oz _ Hz. split.
    + eapply carries_trans;
        [exact (new_char_carries (_length r) None st _ _ oz eq_refl)
        |exact (memcpy_carries _ _ _ _ _ _ _ oz Hm)].
    + eapply separate_fresh; [by eapply (proj1 Ho)|reflexivity|done].
  - eapply carries_valid;
      [|exact (memcpy_carries _ _ _ _ _ _ _ _ Hm)|reflexivity|reflexivity].
    eapply valid_new; [reflexivity|reflexivity|]. rewrite length_replicate. lia.
Qed.

Lemma move_owned st this rhs st' :
  owned st -> exec (My_string_move this rhs) st = Ok st' -> owned st'.
Proof.
  intros Ho H. apply exec_Ok in H as [u H]. unfold My_string_move in H.
  invert H. apply print_Ok in H as ->. tidy_all. simplify_map_eq.
  rename x into r.
  eapply (owned_update st _ this rhs).
  - done.
  - tidy. by rewrite !insert_insert_eq.
  - intros. apply carries_refl.
  - eapply carries_valid; [by eapply (proj1 Ho)|apply carries_refl|done|done].
  - intros _. split; [by apply valid_null|apply separate_sym; by left].
  - intros z oz Hz1 Hz2 Hz. split; [|intros _; by left].
    eapply separate_init; [|exact (proj2 Ho rhs z r oz (not_eq_sym Hz2) H0 Hz)].
    done.
Qed.

Lemma delete_arr_length p st u st' :
  delete_arr p st = Ok (u, st') -> length (mem st') = length (mem st).
Proof.
  intros H. apply delete_arr_Ok in H as [[_ ->]|(b & c & _ & _ & ->)];
    [done|apply length_insert].
Qed.

Lemma separate_carries st p u st' o oz :
  delete_arr p st = Ok (u, st') -> _init o = p -> separate o oz ->
  carries (mem st) (mem st') oz.
Proof.
  intros H Hp Hs. eapply delete_arr_carries; [done|].
  unfold separate in Hs. rewrite Hp in Hs. destruct Hs; [by right|left; congruence].
Qed.

Lemma copy_assign_owned st this rhs st' :
  owned st -> exec (copy_assign this rhs) st = Ok st' -> owned st'.
Proof.
  intros Ho H. apply exec_Ok in H as [u H]. unfold copy_assign in H.
  invert H. apply print_Ok in H as ->. rename x into t.
  assert (objs st0 = objs st /\ length (mem st0) = length (mem st) /\
          forall z oz, z <> this -> objs st !! z = Some oz ->
                       carries (mem st) (mem st0) oz) as (Eo0 & El0 & Hc0).
  { case_decide.
    - split_and!; [by eapply delete_arr_objs|by eapply delete_arr_length|].
      intros z oz Hz Hoz. eapply separate_carries; [done|done|].
      by apply (proj2 Ho this z).
    - apply ret_Ok in Hm as [_ ->]. split_and!; try done.
      intros. apply carries_refl. }
  clear Hm. tidy_all. rewrite Eo0 in *.
  apply memcpy_objs in Hm0 as Eo1. tidy_all. rewrite Eo1 in *.
  assert (_length x7 = _length x0) as Elen.
  { destruct (decide (this = rhs)) as [->|Hne]; by simplify_map_eq. }
  clear H4 H5 H6 H8. simplify_map_eq.
  eapply (owned_update1 st _ this); [done|tidy; by rewrite !insert_insert_eq| |].
  - intros z oz Hz Hoz. split.
    + eapply carries_trans; [by eapply Hc0|].
      eapply carries_trans;
        [exact (new_char_carries (_length x0) None st0 _ _ oz eq_refl)
        |exact (memcpy_carries _ _ _ _ _ _ _ oz Hm0)].
    + eapply separate_fresh; [by eapply (proj1 Ho)|reflexivity|lia].
  - eapply carries_valid;
      [|exact (memcpy_carries _ _ _ _ _ _ _ _ Hm0)|reflexivity|reflexivity].
    tidy. eapply valid_new; [reflexivity|reflexivity|].
    rewrite length_replicate, Elen. lia.
Qed.

Lemma move_assign_owned st this rhs st' :
  owned st -> exec (move_assign this rhs) st = Ok st' -> owned st'.
Proof.
  intros Ho H. apply exec_Ok in H as [u H]. unfold move_assign in H.
  case_decide as Hne; [|by apply ret_Ok in H as [_ ->]].
  invert H. apply print_Ok in H as ->. rename x into t.
  apply delete_arr_objs in Hm as Eo0. tidy_all. rewrite Eo0 in *.
  simplify_map_eq. rename x0 into r.
  assert (forall oz, separate t oz -> carries (mem st) (mem st0) oz) as Hc.
  { intros oz Hs. by eapply separate_carries. }
  eapply (owned_update st _ rhs this).
  - done.
  - tidy. by rewrite !insert_insert_eq.
  - intros z oz _ Hz Hoz. tidy. apply Hc. by apply (proj2 Ho this z).
  - by apply valid_null.
  - intros _. split; [|by left].
    eapply carries_valid; [by eapply (proj1 Ho rhs)| |done|done].
    tidy. apply Hc. by apply (proj2 Ho this rhs).
  - intros z oz Hz1 Hz2 Hoz. split; [by left|]. intros _.
    eapply separate_init; [|exact (proj2 Ho rhs z r oz (not_eq_sym Hz1) H1 Hoz)].
    done.
Qed.

Lemma owned_delete st st' x :
  owned st -> objs st' = delete x (objs st) ->
  (forall z oz, z <> x -> objs st !! z = Some oz ->
                carries (mem st) (mem st') oz) ->
  owned st'.
Proof.
  intros [Hv Hs] Eo Hc. split.
  - intros z oz. rewrite Eo. intros Hz.
    apply lookup_delete_Some in Hz as [Hne Hz].
    eapply carries_valid; [by eapply Hv|by eapply Hc|done|done].
  - intros z1 z2 o1 o2 Hne. rewrite Eo. intros H1 H2.
    apply lookup_delete_Some in H1 as [_ H1].
    apply lookup_delete_Some in H2 as [_ H2]. by eapply Hs.
Qed.

Lemma dtor_owned st this st' :
  owned st -> exec (My_string_dtor this) st = Ok st' -> owned st'.
Proof.
  intros Ho H. apply exec_Ok in H as [u H]. unfold My_string_dtor in H.
  invert H. unfold forget in H. injection H as H. subst st'. rename x into t.
  apply delete_arr_objs in Hm as Eo0.
  eapply (owned_delete st _ this); [done|tidy; by rewrite Eo0|].
  intros z oz Hz Hoz. tidy. eapply separate_carries; [done|done|].
  by apply (proj2 Ho this z).
Qed.

Lemma release_carries p (h : heap) oz :
  _init oz <> p \/ p = nullptr -> carries h (release p h) oz.
Proof.
  intros Hne b cells Hb Hc. exists cells. split; [|done].
  rewrite release_lookup; [done|]. unfold nullptr in Hne.
  destruct Hne; congruence.
Qed.

Lemma append_owned st this rhs st' :
  owned st -> exec (append this rhs) st = Ok st' -> owned st'.
Proof.
  intros Ho H. apply exec_Ok in H as [u H].
  apply append_Ok in H
    as (o & r & st1 & o1 & r1 & Ho' & Hr & Hres & Ho1 & Hr1 & E1 & E2 & E3 & H).
  apply memcpy_objs in H as Eo. 
  pose proof (fun oz => memcpy_carries _ _ _ _ _ _ _ oz H) as Hcp.
  case_decide.
  - apply resize_Ok in Hres as (o' & from & Ho'' & Hfrom & Hsz & ->).
    simplify_map_eq. tidy_all.
    set (new := overwrite 0 (take (N.to_nat (_length o)) from)
                  (replicate (N.to_nat (size_add (_size o) (_length r))) None))
      in *.
    assert (length new = N.to_nat (size_add (_size o) (_length r))) as Hnew.
    { subst new. rewrite length_overwrite; [by rewrite length_replicate|].
      rewrite length_take, length_replicate. lia. }
    pose proof (proj1 Ho this o Ho') as Hvo.
    eapply (owned_update1 st _ this); [done|by rewrite Eo| |].
    + intros z oz Hz Hoz. split.
      * eapply carries_trans; [|apply Hcp]. tidy.
        eapply carries_trans; [|apply release_carries].
        -- intros b cells _ Hb. exists cells. split; [|done].
           by apply lookup_app_l_Some.
        -- pose proof (proj2 Ho this z o oz (not_eq_sym Hz) Ho' Hoz) as Hs.
           unfold separate in Hs. destruct Hs; [by right|left; congruence].
      * eapply separate_fresh; [by eapply (proj1 Ho)|reflexivity|done].
    + eapply (carries_valid
                (with_mem (release (_init o) (mem st ++ [Some new])) st));
        [|apply Hcp|reflexivity|reflexivity].
      unfold valid, buffer. tidy.
      rewrite release_lookup.
      * rewrite list_lookup_middle by done. lia.
      * intros Heq. apply (valid_allocated _ _ _ Hvo) in Heq. lia.
  - subst st1. simplify_map_eq.
    eapply (owned_update1 st _ this);
      [done|by rewrite Eo, insert_id| |].
    + intros z oz Hz Hoz. split; [apply Hcp|].
      by apply (proj2 Ho this z).
    + eapply carries_valid; [by apply (proj1 Ho this)|apply Hcp|done|done].
Qed.

(** X1. The ownership discipline is kept by every operation of [My_string]
    that ends without a fault, the destructor included: afterwards every
    object is still valid and no two objects share an allocation. *)
Theorem owned_preserved st st' :
  owned st ->
  (forall op, exec (perform op) st = Ok st' -> owned st') /\
  (forall this, exec (My_string_dtor this) st = Ok st' -> owned st').
Proof.
  intros Ho. split.
  - intros [this|this rhs|this rhs|this rhs|this rhs|this rhs|this rhs];
      cbn [perform].
    + by apply default_owned.
    + by apply cstr_owned.
    + by apply copy_owned.
    + by apply move_owned.
    + by apply copy_assign_owned.
    + by apply move_assign_owned.
    + by apply append_owned.
  - intros this. by apply dtor_owned.
Qed.

Lemma owned_empty st : objs st = ∅ -> owned st.
Proof.
  intros E. split.
  - intros x o. by rewrite E, lookup_empty.
  - intros x y ox oy _. by rewrite E, lookup_empty.
Qed.

Lemma owned_preserved_witness :
  owned after_literal /\
  exec (perform (Construct_from "S" (Some 0%nat))) after_literal
  = Ok after_construct /\
  exec (perform (Copy_construct "T" "S")) after_construct = Ok after_copy /\
  exec (My_string_dtor "S") after_copy = Ok after_dtor /\
  owned after_construct /\ owned after_copy /\ owned after_dtor.
Proof.
  assert (H0 : owned after_literal) by (by apply owned_empty).
  assert (H1 : exec (perform (Construct_from "S" (Some 0%nat))) after_literal
               = Ok after_construct) by (vm_compute; reflexivity).
  assert (H2 : exec (perform (Copy_construct "T" "S")) after_construct
               = Ok after_copy) by (vm_compute; reflexivity).
  assert (H3 : exec (My_string_dtor "S") after_copy = Ok after_dtor)
    by (vm_compute; reflexivity).
  pose proof (proj1 (owned_preserved _ _ H0) _ H1) as O1.
  pose proof (proj1 (owned_preserved _ _ O1) _ H2) as O2.
  pose proof (proj2 (owned_preserved _ _ O2) _ H3) as O3.
  by split_and!.
Defined.

(** ** The operations on valid objects *)

(** The state each operation ends in, when its operands are valid. *)

Lemma copy_run st this rhs r :
  objs st !! rhs = Some r -> valid st r ->
  exec (My_string_copy this rhs) st
  = Ok (with_cout (cout st ++ ["COPY constructor has been called"])
          (with_objs (<[this := {| _init := Some (length (mem st));
                                   _length := _length r;
                                   _size := _size r |}]> (objs st))
             (with_mem (mem st ++ [Some (content st r)]) st))).
Proof.
  intros Hr Hv. destruct (valid_source _ _ Hv) as (from & Hc & Hl & Hfrom).
  unfold exec, My_string_copy. do 6 step.
  erewrite bind_run.
  2:{ eapply (memcpy_last _ (mem st) _ from); [reflexivity| |].
      - destruct Hfrom as [?|(b & ? & ?)]; [by left|right; by exists b].
      - rewrite length_replicate. lia. }
  repeat step. norm. rewrite Hc.
  rewrite overwrite_all; [done|]. rewrite length_replicate, length_take. lia.
Qed.

Lemma move_run st this rhs r :
  objs st !! rhs = Some r ->
  exec (My_string_move this rhs) st
  = Ok (with_cout (cout st ++ ["MOVE constructor has been called"])
          (with_objs (<[this := r]> (<[rhs := empty_marker]> (objs st))) st)).
Proof.
  intros Hr. unfold exec, My_string_move. repeat step. norm.
  rewrite !insert_insert_eq. by destruct r.
Qed.

Lemma copy_assign_run st this rhs t r :
  this <> rhs -> objs st !! this = Some t -> objs st !! rhs = Some r ->
  valid st t -> valid st r -> separate t r ->
  exec (copy_assign this rhs) st
  = Ok (with_cout (cout st ++ ["COPY assignment has been called"])
          (with_objs (<[this := {| _init := Some (length (mem st));
                                   _length := _length r;
                                   _size := _size r |}]> (objs st))
             (with_mem (release (_init t) (mem st) ++ [Some (content st r)])
                st))).
Proof.
  intros Hne Ht Hr Hvt Hvr Hs.
  destruct (valid_source _ _ Hvr) as (from & Hc & Hl & Hfrom).
  unfold exec, copy_assign. step.
  erewrite bind_run by (by apply guarded_delete_run).
  do 6 step.
  erewrite bind_run.
  2:{ eapply (memcpy_last _ (release (_init t) (mem st)) _ from);
        [reflexivity| |].
      - destruct Hfrom as [?|(b & Hb & Hm)]; [by left|right].
        exists b. split_and!; [done| |done].
        rewrite release_lookup; [done|].
        unfold separate, nullptr in Hs. destruct Hs; congruence.
      - rewrite length_replicate. lia. }
  repeat step. norm. rewrite !insert_insert_eq, length_release, Hc.
  rewrite overwrite_all; [done|]. rewrite length_replicate, length_take. lia.
Qed.

Lemma delete_run st t :
  valid st t ->
  delete_arr (_init t) st = Ok (tt, with_mem (release (_init t) (mem st)) st).
Proof.
  unfold valid, buffer. destruct (_init t) as [b|] eqn:E.
  - destruct (mem st !! b) as [[cells|]|] eqn:Em; try done. intros _.
    by eapply delete_arr_run.
  - intros _. cbn [release]. by rewrite with_mem_id.
Qed.

Lemma move_assign_run st this rhs t r :
  this <> rhs -> objs st !! this = Some t -> objs st !! rhs = Some r ->
  valid st t ->
  exec (move_assign this rhs) st
  = Ok (with_cout (cout st ++ ["MOVE assignment has been called"])
          (with_objs (<[rhs := empty_marker]> (<[this := r]> (objs st)))
             (with_mem (release (_init t) (mem st)) st))).
Proof.
  intros Hne Ht Hr Hvt. unfold exec, move_assign.
  rewrite decide_True by done. step.
  erewrite bind_run by (by apply delete_run).
  repeat step. norm. rewrite !insert_insert_eq. by destruct r.
Qed.

Lemma dtor_run st this t :
  objs st !! this = Some t -> valid st t ->
  exec (My_string_dtor this) st
  = Ok (with_cout (cout st ++ ["DESTRUCTOR has been called"])
          (with_objs (delete this (objs st))
             (with_mem (release (_init t) (mem st)) st))).
Proof.
  intros Ht Hv. unfold exec, My_string_dtor. step.
  erewrite bind_run by (by apply delete_run).
  by repeat step.
Qed.

(** ** [resize] and the growing append *)

Lemma release_app p (h : heap) x :
  (forall b, p = Some b -> (b < length h)%nat) ->
  release p (h ++ [x]) = release p h ++ [x].
Proof.
  intros H. destruct p as [b|]; [|done]. cbn [release].
  apply insert_app_l. by apply H.
Qed.

Lemma valid_pointer st o b :
  valid st o -> _init o = Some b ->
  exists cells, mem st !! b = Some (Some cells) /\
                (N.to_nat (_length o) <= length cells)%nat /\
                content st o = take (N.to_nat (_length o)) cells.
Proof.
  unfold valid, content, buffer. intros Hv Hb. rewrite Hb in *.
  destruct (mem st !! b) as [[cells|]|]; try done. by exists cells.
Qed.

Lemma length_content st o :
  valid st o -> length (content st o) = N.to_nat (_length o).
Proof.
  intros Hv. destruct (valid_source _ _ Hv) as (from & -> & Hl & _).
  rewrite length_take. lia.
Qed.

(** [resize] on a valid object, when the new size holds the content. *)
Lemma resize_run st this n o :
  objs st !! this = Some o -> valid st o ->
  _length o <= size_add (_size o) n ->
  exec (resize this n) st
  = Ok (with_objs (<[this := with_init (Some (length (mem st))) o]> (objs st))
          (with_mem
             (release (_init o) (mem st) ++
              [Some (content st o ++
                     replicate (N.to_nat (size_add (_size o) n)
                                - N.to_nat (_length o)) None)]) st)).
Proof.
  intros Ho Hv Hsz.
  destruct (valid_source _ _ Hv) as (from & Hc & Hl & Hfrom).
  unfold exec, resize. do 5 step.
  erewrite bind_run.
  2:{ eapply (memcpy_last _ (mem st) _ from); [reflexivity| |].
      - destruct Hfrom as [?|(b & ? & ?)]; [by left|right; by exists b].
      - rewrite length_replicate. lia. }
  step.
  assert (forall b, _init o = Some b -> (b < length (mem st))%nat) as Hlt
      by (intros b; by apply valid_allocated).
  set (new := overwrite _ _ _).
  assert (new = content st o ++
                replicate (N.to_nat (size_add (_size o) n)
                           - N.to_nat (_length o)) None) as ->.
  { subst new. unfold overwrite. change (N.to_nat 0) with 0%nat.
    rewrite take_0. cbn [app Nat.add].
    rewrite Hc, drop_replicate, length_take. do 2 f_equal. lia. }
  destruct (_init o) as [b|] eqn:Eb.
  - destruct (valid_pointer _ _ _ Hv Eb) as (cells & Hm & _).
    erewrite (delete_arr_run b cells);
      [|tidy; by apply lookup_app_l_Some].
    norm. rewrite <- (release_app (Some b)) by (intros ? [= <-]; by apply Hlt).
    done.
  - by norm.
Qed.

Lemma resize_wrap st this n o :
  objs st !! this = Some o -> valid st o ->
  size_add (_size o) n < _length o ->
  exec (resize this n) st = Fault OutOfBounds.
Proof.
  intros Ho Hv Hsz. unfold exec, resize. do 5 step.
  unfold bind at 1, memcpy. rewrite decide_False by lia.
  destruct (_init o) as [b|] eqn:Eb.
  - destruct (valid_pointer _ _ _ Hv Eb) as (cells & Hm & Hl & _). tidy.
    rewrite (lookup_app_l_Some _ _ _ _ Hm).
    rewrite list_lookup_middle by done.
    rewrite decide_False; [done|]. rewrite length_replicate. lia.
  - unfold valid in Hv. rewrite Eb in Hv. lia.
Qed.

(** X2. [resize] on a valid object: when the sum of the stored capacity
    and the requested length, taken modulo [2^64], is at least the stored
    length, it ends without a fault, with the content in a new allocation of
    that many cells, the old allocation released and the stored length and
    capacity unchanged; when the sum wraps below the stored length, the copy
    of the content runs past the new allocation. *)
Theorem resize_spec st this n o :
  objs st !! this = Some o -> valid st o ->
  (_length o <= size_add (_size o) n ->
   exec (resize this n) st
   = Ok (with_objs (<[this := with_init (Some (length (mem st))) o]> (objs st))
           (with_mem
              (release (_init o) (mem st) ++
               [Some (content st o ++
                      replicate (N.to_nat (size_add (_size o) n)
                                 - N.to_nat (_length o)) None)]) st))) /\
  (size_add (_size o) n < _length o ->
   exec (resize this n) st = Fault OutOfBounds).
Proof.
  intros Ho Hv. split; intros Hsz.
  - by apply resize_run.
  - by eapply resize_wrap.
Qed.

Lemma resize_spec_witness :
  let o := {| _init := Some 1%nat; _length := 3; _size := 3 |} in
  let big := {| _init := Some 0%nat; _length := 3; _size := 2 ^ 64 - 1 |} in
  (objs two_strings !! "S" = Some o /\ valid two_strings o /\
   _length o <= size_add (_size o) 2) /\
  (exists st', exec (resize "S" 2) two_strings = Ok st' /\
     mem st' !! 4%nat
     = Some (Some [Some "a"; Some "b"; Some "c"; None; None]%char) /\
     mem st' !! 1%nat = Some None) /\
  (objs wrapping !! "W" = Some big /\ valid wrapping big /\
   size_add (_size big) 1 < _length big) /\
  exec (resize "W" 1) wrapping = Fault OutOfBounds.
Proof.
  intros o big.
  assert (H1 : objs two_strings !! "S" = Some o) by (vm_compute; reflexivity).
  assert (H2 : valid two_strings o) by (vm_compute; lia).
  assert (H3 : _length o <= size_add (_size o) 2) by (vm_compute; discriminate).
  assert (H4 : objs wrapping !! "W" = Some big) by (vm_compute; reflexivity).
  assert (H5 : valid wrapping big) by (vm_compute; lia).
  assert (H6 : size_add (_size big) 1 < _length big) by (vm_compute; reflexivity).
  split; [done|]. split.
  - eexists. split; [exact (proj1 (resize_spec _ _ 2 _ H1 H2) H3)|].
    split; vm_compute; reflexivity.
  - split; [done|]. exact (proj2 (resize_spec _ _ 1 _ H4 H5) H6).
Defined.

Lemma size_add_small a b : a + b < 2 ^ 64 -> size_add a b = a + b.
Proof. intros H. unfold size_add. by apply N.mod_small. Qed.

Lemma memcpy_run st s d (from to : block) off n :
  n <> 0 ->
  mem st !! s = Some (Some from) -> mem st !! d = Some (Some to) ->
  (N.to_nat n <= length from)%nat ->
  (N.to_nat off + N.to_nat n <= length to)%nat ->
  ~ (s = d /\ off < n) ->
  memcpy (Some d) off (Some s) n st
  = Ok (tt, with_mem (<[d := Some (overwrite (N.to_nat off)
                                     (take (N.to_nat n) from) to)]>
                        (mem st)) st).
Proof.
  intros. apply memcpy_Ok. right. exists s, d, from, to. by split_and!.
Qed.

(** [a += b] on the path that grows the buffer. *)
Lemma append_grow_run st a b oa ob :
  objs st !! a = Some oa -> objs st !! b = Some ob ->
  valid st oa -> valid st ob -> (a <> b -> separate oa ob) ->
  _length oa <= _size oa -> _size oa <= _length ob ->
  _size oa + _length ob < 2 ^ 64 ->
  exec (append a b) st
  = Ok (with_objs (<[a := with_init (Some (length (mem st))) oa]> (objs st))
          (with_mem
             (release (_init oa) (mem st) ++
              [Some (content st oa ++ content st ob ++
                     replicate (N.to_nat (_size oa) - N.to_nat (_length oa))
                       None)]) st)).
Proof.
  intros Ha Hb Hva Hvb Hsep Hcap Hguard Hwrap.
  pose proof (size_add_small _ _ Hwrap) as Hsz.
  pose proof (length_content _ _ Hva) as Hla.
  pose proof (length_content _ _ Hvb) as Hlb.
  unfold exec, append. do 2 step. rewrite decide_True by done.
  pose proof (resize_run st a (_length ob) oa Ha Hva) as Hres.
  rewrite Hsz in Hres. specialize (Hres ltac:(lia)).
  unfold exec in Hres. destruct (resize a (_length ob) st) as [[[] st1]|] eqn:E;
    [|done].
  injection Hres as ->. erewrite bind_run by exact E. clear E.
  set (h := release (_init oa) (mem st)).
  assert (length h = length (mem st)) as Hh by apply length_release.
  set (rest := replicate (N.to_nat (_size oa + _length ob)
                          - N.to_nat (_length oa)) None).
  step. step.
  assert (exists r, objs (with_objs
             (<[a := with_init (Some (length (mem st))) oa]> (objs st))
             (with_mem (h ++ [Some (content st oa ++ rest)]) st)) !! b = Some r
          /\ _length r = _length ob /\
          (a = b /\ _init r = Some (length (mem st)) /\ ob = oa \/
           a <> b /\ r = ob)) as (r & Hr & Hrl & Hcase).
  { tidy. destruct (decide (a = b)) as [->|Hne].
    - eexists. rewrite lookup_insert_eq. split; [done|]. simplify_eq.
      split; [done|]. by left.
    - exists ob. rewrite lookup_insert_ne by done. split; [done|].
      split; [done|]. by right. }
  erewrite bind_run by (by apply fld_run).
  erewrite bind_run by (by apply fld_run). rewrite Hrl.
  destruct (decide (_length ob = 0)) as [Hz|Hnz].
  - rewrite Hz. rewrite memcpy_nothing. norm. do 4 f_equal.
    assert (content st ob = []) as ->
        by (apply length_zero_iff_nil; rewrite Hlb, Hz; done).
    subst rest. rewrite Hz, N.add_0_r. done.
  - assert (exists s from,
             _init r = Some s /\
             (h ++ [Some (content st oa ++ rest)]) !! s = Some (Some from) /\
             take (N.to_nat (_length ob)) from = content st ob /\
             (N.to_nat (_length ob) <= length from)%nat /\
             ~ (s = length (mem st) /\ _length oa < _length ob))
      as (s & from & Hs & Hfrom & Htake & Hlen & Hov).
    { destruct Hcase as [(-> & Hi & ->)|(Hne & ->)].
      - exists (length (mem st)), (content st oa ++ rest).
        split_and!; [done| | | |lia].
        + by rewrite list_lookup_middle.
        + by rewrite take_app_length' by done.
        + rewrite length_app. lia.
      - destruct (_init ob) as [pb|] eqn:Eb;
          [|unfold valid in Hvb; by rewrite Eb in Hvb].
        destruct (valid_pointer _ _ _ Hvb Eb) as (cells & Hm & Hl & Hc).
        exists pb, cells. split_and!; [done| |done|done|].
        + apply lookup_app_l_Some. subst h. rewrite release_lookup; [done|].
          specialize (Hsep Hne). unfold separate, nullptr in Hsep.
          destruct Hsep; congruence.
        + intros [-> _]. apply lookup_lt_Some in Hm. lia. }
    rewrite Hs.
    rewrite (memcpy_run _ s (length (mem st)) from (content st oa ++ rest)).
    + norm. do 3 f_equal. rewrite <- Hh, insert_last. do 2 f_equal.
      rewrite Htake. unfold overwrite.
      rewrite take_app_length' by done. f_equal. f_equal.
      rewrite drop_app_ge by lia. subst rest. rewrite drop_replicate.
      do 2 f_equal. lia.
    + done.
    + exact Hfrom.
    + tidy. rewrite <- Hh. by apply list_lookup_middle.
    + done.
    + rewrite length_app. subst rest. rewrite length_replicate. lia.
    + intros [-> Hlt]. by apply Hov.
Qed.

(** X3. The growing append.  For valid operands that do not share an
    allocation (or are the same object), with the stored length of [a] at
    most its stored capacity, the guard [_size <= rhs._length] true and no
    wrap of the new size: [a += b] ends without a fault, releases the old
    allocation of [a], and leaves [a] with a new allocation of capacity plus
    added length cells that holds the old content of [a], then the content
    of [b], then indeterminate cells; the fields of [a] other than the
    pointer are unchanged. *)
Theorem append_grows st a b oa ob :
  objs st !! a = Some oa -> objs st !! b = Some ob ->
  valid st oa -> valid st ob -> (a <> b -> separate oa ob) ->
  _length oa <= _size oa -> _size oa <= _length ob ->
  _size oa + _length ob < 2 ^ 64 ->
  exec (append a b) st
  = Ok (with_objs (<[a := with_init (Some (length (mem st))) oa]> (objs st))
          (with_mem
             (release (_init oa) (mem st) ++
              [Some (content st oa ++ content st ob ++
                     replicate (N.to_nat (_size oa) - N.to_nat (_length oa))
                       None)]) st)).
Proof. apply append_grow_run. Qed.

Lemma append_grows_witness :
  let oa := {| _init := Some 1%nat; _length := 2; _size := 2 |} in
  let ob := {| _init := Some 3%nat; _length := 2; _size := 2 |} in
  (objs three_strings !! "a" = Some oa /\ objs three_strings !! "b" = Some ob /\
   valid three_strings oa /\ valid three_strings ob /\ separate oa ob /\
   _length oa <= _size oa /\ _size oa <= _length ob /\
   _size oa + _length ob < 2 ^ 64) /\
  exists st' o,
    exec (append "a" "b") three_strings = Ok st' /\
    objs st' !! "a" = Some o /\
    buffer st' o = Some [Some "a"; Some "b"; Some "c"; Some "d"]%char /\
    mem st' !! 1%nat = Some None.
Proof.
  intros oa ob.
  assert (H1 : objs three_strings !! "a" = Some oa) by (vm_compute; reflexivity).
  assert (H2 : objs three_strings !! "b" = Some ob) by (vm_compute; reflexivity).
  assert (H3 : valid three_strings oa) by (vm_compute; lia).
  assert (H4 : valid three_strings ob) by (vm_compute; lia).
  assert (H5 : separate oa ob) by (right; discriminate).
  assert (H6 : _length oa <= _size oa) by (vm_compute; discriminate).
  assert (H7 : _size oa <= _length ob) by (vm_compute; discriminate).
  assert (H8 : _size oa + _length ob < 2 ^ 64) by (vm_compute; reflexivity).
  split; [by split_and!|].
  eexists _, _. split.
  - exact (append_grows _ "a" "b" oa ob H1 H2 H3 H4 (fun _ => H5) H6 H7 H8).
  - split; [vm_compute; reflexivity|]. split; vm_compute; reflexivity.
Defined.

(** ** Progress *)

Lemma cstr_run st this b cells s :
  mem st !! b = Some (Some cells) -> c_str cells = Ok s ->
  exec (My_string_cstr this (Some b)) st
  = Ok (with_objs
          (<[this := {| _init := Some (length (mem st));
                        _length := N.of_nat (length s);
                        _size := N.of_nat (length s) |}]> (objs st))
          (with_mem (mem st ++ [Some (Some <$> s)]) st)).
Proof.
  intros Hb Hs. pose proof (strlen_run _ _ _ _ Hb Hs) as Hlen.
  destruct (c_str_prefix _ _ Hs) as [Hpre Hlt].
  unfold exec, My_string_cstr.
  erewrite bind_run by exact Hlen. erewrite bind_run by exact Hlen.
  step.
  erewrite bind_run.
  2:{ eapply (memcpy_last _ (mem st) _ cells); [reflexivity| |].
      - right. exists b. split_and!; [done|done|lia].
      - rewrite length_replicate. lia. }
  unfold put. norm. do 3 f_equal.
  rewrite Nat2N.id, Hpre. rewrite overwrite_all; [done|].
  by rewrite length_replicate, length_fmap.
Qed.

(** X4. In a state that keeps the ownership discipline, an operation that
    is ready to run ends without a fault, in a state that keeps the
    discipline; so does the destructor of an object that exists. *)
Theorem owned_progress st :
  owned st ->
  (forall op, ready st op ->
              exists st', exec (perform op) st = Ok st' /\ owned st') /\
  (forall this, is_Some (objs st !! this) ->
                exists st', exec (My_string_dtor this) st = Ok st' /\ owned st').
Proof.
  intros Ho.
  assert (forall x o, objs st !! x = Some o -> valid st o) as Hv
      by apply Ho.
  assert (forall op, ready st op -> exists st', exec (perform op) st = Ok st') as Hrun.
  { intros [this|this rhs|this rhs|this rhs|this rhs|this rhs|this rhs];
      cbn [perform ready].
    - intros _. by eexists.
    - intros (b & cells & s & -> & Hb & Hs). eexists. by eapply cstr_run.
    - intros [r Hr]. eexists. eapply copy_run; [done|by eapply Hv].
    - intros [r Hr]. eexists. by eapply move_run.
    - intros (Hne & [t Ht] & [r Hr]). eexists.
      eapply copy_assign_run; try done; [by eapply Hv|by eapply Hv|].
      by apply (proj2 Ho this rhs).
    - intros ([t Ht] & [r Hr]). destruct (decide (this = rhs)) as [->|Hne].
      + eexists. unfold exec. by rewrite move_assign_self.
      + eexists. eapply move_assign_run; try done. by eapply Hv.
    - intros (o & r & Hto & Hr & H1 & H2 & H3). eexists.
      eapply append_grow_run; try done; [by eapply Hv|by eapply Hv|].
      intros Hne. by apply (proj2 Ho this rhs). }
  split.
  - intros op Hop. destruct (Hrun op Hop) as [st' Hst']. exists st'.
    split; [done|].
    destruct op; cbn [perform] in Hst'.
    + by eapply default_owned.
    + by eapply cstr_owned.
    + by eapply copy_owned.
    + by eapply move_owned.
    + by eapply copy_assign_owned.
    + by eapply move_assign_owned.
    + by eapply append_owned.
  - intros this [t Ht]. eexists. split.
    + eapply dtor_run; [done|by eapply Hv].
    + eapply dtor_owned; [done|]. eapply dtor_run; [done|by eapply Hv].
Qed.

Lemma owned_progress_witness :
  (owned after_construct /\
   ready after_construct (Copy_construct "T" "S") /\
   is_Some (objs after_construct !! "S")) /\
  (exists st', exec (perform (Copy_construct "T" "S")) after_construct = Ok st'
               /\ owned st') /\
  (exists st', exec (My_string_dtor "S") after_construct = Ok st' /\ owned st').
Proof.
  assert (H0 : owned after_construct).
  { apply (cstr_owned after_literal "S" (Some 0%nat));
      [by apply owned_empty|vm_compute; reflexivity]. }
  assert (H1 : is_Some (objs after_construct !! "S"))
    by (eexists; vm_compute; reflexivity).
  destruct (owned_progress _ H0) as [Hop Hd].
  split; [by split_and!|]. split.
  - exact (Hop (Copy_construct "T" "S") H1).
  - exact (Hd "S" H1).
Defined.

(** ** Destruction after a transfer and after a duplication *)

Lemma exec_seq {A B} (m1 : M A) (m2 : M B) st st1 :
  exec m1 st = Ok st1 -> exec (bind m1 (fun _ => m2)) st = exec m2 st1.
Proof.
  unfold exec, bind. destruct (m1 st) as [[a s]|f]; [|done].
  by intros [= ->].
Qed.

Lemma valid_same_mem st st' o : mem st' = mem st -> valid st o -> valid st' o.
Proof. unfold valid, buffer. by intros ->. Qed.

(** The move constructor, then both destructors. *)
Lemma move_then_destroy st S T s :
  objs st !! S = Some s -> valid st s -> S <> T ->
  exec (My_string_move T S ;; My_string_dtor T ;; My_string_dtor S) st
  = Ok (with_cout (cout st ++ ["MOVE constructor has been called";
                               "DESTRUCTOR has been called";
                               "DESTRUCTOR has been called"])
          (with_objs (delete S (delete T (objs st)))
             (with_mem (release (_init s) (mem st)) st))).
Proof.
  intros Hs Hv Hne.
  erewrite exec_seq by (by apply move_run).
  erewrite exec_seq.
  2:{ eapply (dtor_run _ T s); [tidy; apply lookup_insert_eq|].
      by apply (valid_same_mem st). }
  erewrite (dtor_run _ S empty_marker).
  - norm. rewrite <- !app_assoc. do 2 f_equal.
    rewrite delete_insert_eq, (delete_delete _ S T), delete_insert_eq.
    apply delete_delete.
  - tidy. rewrite lookup_delete_ne by done.
    rewrite lookup_insert_ne by done. apply lookup_insert_eq.
  - by apply valid_null.
Qed.

(** The copy constructor, then both destructors. *)
Lemma copy_then_destroy st S T s :
  objs st !! S = Some s -> valid st s -> S <> T ->
  exec (My_string_copy T S ;; My_string_dtor T ;; My_string_dtor S) st
  = Ok (with_cout (cout st ++ ["COPY constructor has been called";
                               "DESTRUCTOR has been called";
                               "DESTRUCTOR has been called"])
          (with_objs (delete S (delete T (objs st)))
             (with_mem (release (_init s) (mem st) ++ [None]) st))).
Proof.
  intros Hs Hv Hne.
  assert (forall b, _init s = Some b -> (b < length (mem st))%nat) as Hlt
      by (intros b; by apply valid_allocated).
  erewrite exec_seq by (by apply copy_run).
  erewrite exec_seq.
  2:{ eapply dtor_run; [tidy; apply lookup_insert_eq|].
      eapply valid_new; [reflexivity|reflexivity|].
      rewrite length_content by done. tidy. lia. }
  erewrite (dtor_run _ S s).
  - norm. rewrite <- !app_assoc, delete_insert_eq. cbn [release].
    rewrite insert_last. by rewrite release_app.
  - tidy. rewrite lookup_delete_ne by done. by rewrite lookup_insert_ne.
  - eapply carries_valid; [exact Hv| |done|done]. tidy. cbn [release].
    rewrite insert_last. intros b cells Hb Hc. exists cells.
    split; [by apply lookup_app_l_Some|done].
Qed.

(** X5. Destruction after a transfer and after a duplication.  From a
    valid source [S], the move constructor into [T] followed by the
    destructors of [T] and of [S] ends without a fault with the allocation
    of [S] released, once; the copy constructor followed by the same
    destructors ends without a fault with both the allocation of [S] and
    the one made for the copy released.  Nothing else in the free store
    changes and three lines are written. *)
Theorem destroy_after_transfer st S T s :
  objs st !! S = Some s -> valid st s -> S <> T ->
  exec (My_string_move T S ;; My_string_dtor T ;; My_string_dtor S) st
  = Ok (with_cout (cout st ++ ["MOVE constructor has been called";
                               "DESTRUCTOR has been called";
                               "DESTRUCTOR has been called"])
          (with_objs (delete S (delete T (objs st)))
             (with_mem (release (_init s) (mem st)) st))) /\
  exec (My_string_copy T S ;; My_string_dtor T ;; My_string_dtor S) st
  = Ok (with_cout (cout st ++ ["COPY constructor has been called";
                               "DESTRUCTOR has been called";
                               "DESTRUCTOR has been called"])
          (with_objs (delete S (delete T (objs st)))
             (with_mem (release (_init s) (mem st) ++ [None]) st))).
Proof.
  intros Hs Hv Hne. split;
    [by apply move_then_destroy|by apply copy_then_destroy].
Qed.

Lemma destroy_after_transfer_witness :
  let s := {| _init := Some 1%nat; _length := 3; _size := 3 |} in
  (objs after_construct !! "S" = Some s /\ valid after_construct s /\
   "S" <> "T") /\
  (exists st',
      exec (My_string_move "T" "S" ;; My_string_dtor "T" ;; My_string_dtor "S")
        after_construct = Ok st' /\
      mem st' = [Some [Some "a"; Some "b"; Some "c"; Some zero]%char; None] /\
      objs st' = ∅) /\
  (exists st',
      exec (My_string_copy "T" "S" ;; My_string_dtor "T" ;; My_string_dtor "S")
        after_construct = Ok st' /\
      mem st' = [Some [Some "a"; Some "b"; Some "c"; Some zero]%char;
                 None; None] /\
      objs st' = ∅).
Proof.
  intros s.
  assert (H1 : objs after_construct !! "S" = Some s) by (vm_compute; reflexivity).
  assert (H2 : valid after_construct s) by (vm_compute; lia).
  assert (H3 : "S" <> "T") by discriminate.
  destruct (destroy_after_transfer after_construct "S" "T" s H1 H2 H3)
    as [Hm Hc].
  split; [done|]. split.
  - eexists. split; [exact Hm|]. split; vm_compute; reflexivity.
  - eexists. split; [exact Hc|]. split; vm_compute; reflexivity.
Defined.

(** ** What [print_str] writes *)

(** X6. [print_str] on an object whose buffer holds a terminator writes
    one line: the name, " : ", and the characters of the buffer before the
    first terminator, whatever the stored length is; nothing else changes. *)
Theorem print_str_writes st x name o b cells s :
  objs st !! x = Some o -> _init o = Some b ->
  mem st !! b = Some (Some cells) -> c_str cells = Ok s ->
  exec (print_str x name) st
  = Ok (with_cout (cout st ++ [(name ++ " : " ++ string_of_list_ascii s)%string])
          st).
Proof. apply print_str_terminated. Qed.

Lemma print_str_writes_witness :
  let o := {| _init := Some 0%nat; _length := 3; _size := 2 ^ 64 - 1 |} in
  let cells := [Some "a"; Some "b"; Some "c"; Some zero]%char in
  (objs wrapping !! "W" = Some o /\ _init o = Some 0%nat /\
   mem wrapping !! 0%nat = Some (Some cells) /\
   c_str cells = Ok ["a"; "b"; "c"]%char) /\
  exec (print_str "W" "w") wrapping
  = Ok (with_cout ["w : abc"%string] wrapping).
Proof.
  intros o cells.
  assert (H1 : objs wrapping !! "W" = Some o) by (vm_compute; reflexivity).
  assert (H2 : mem wrapping !! 0%nat = Some (Some cells)) by reflexivity.
  assert (H3 : c_str cells = Ok ["a"; "b"; "c"]%char) by reflexivity.
  split; [done|].
  exact (print_str_writes wrapping "W" "w" o 0%nat cells _ H1 eq_refl H2 H3).
Defined.

Lemma c_str_nonzero cells s : c_str cells = Ok s -> Forall (fun c => c <> zero) s.
Proof.
  revert s. induction cells as [|[c|] rest IH]; intros s; cbn [c_str]; try done.
  case_decide as Hz.
  - intros [= <-]. constructor.
  - destruct (c_str rest) as [s'|] eqn:E; [|done].
    intros [= <-]. constructor; [done|by apply IH].
Qed.

Lemma c_str_unterminated s :
  Forall (fun c => c <> zero) s -> c_str (Some <$> s) = Fault OutOfBounds.
Proof.
  induction 1 as [|c s Hc _ IH]; [done|]. cbn [fmap list_fmap c_str].
  rewrite decide_False by done. 
  change (list_fmap ascii cell Some s) with (Some <$> s). by rewrite IH.
Qed.

(** [print_str] on an object whose buffer holds characters and no
    terminator. *)
Lemma print_str_unterminated st x name o s :
  objs st !! x = Some o -> buffer st o = Some (Some <$> s) ->
  Forall (fun c => c <> zero) s ->
  exec (print_str x name) st = Fault OutOfBounds.
Proof.
  intros Ho Hb Hs. unfold exec, print_str. step.
  unfold buffer in Hb. destruct (_init o) as [b|]; [|done].
  destruct (mem st !! b) as [[cells|]|] eqn:E; try done. injection Hb as ->.
  rewrite decide_True by done.
  unfold bind at 1. unfold strlen, bind, deref. rewrite E.
  by rewrite c_str_unterminated.
Qed.

(** X7. A [My_string] built from a character array cannot be rendered:
    whatever the (terminated) input, the buffer the constructor fills has no
    room for a terminator, and [print_str] on the new object runs [strlen]
    past the end of the allocation.  The same holds for a copy of it. *)
Theorem print_str_after_construct st this other name b cells s :
  mem st !! b = Some (Some cells) -> c_str cells = Ok s -> this <> other ->
  exec (My_string_cstr this (Some b) ;; print_str this name) st
  = Fault OutOfBounds /\
  exec (My_string_cstr this (Some b) ;; My_string_copy other this ;;
        print_str other name) st
  = Fault OutOfBounds.
Proof.
  intros Hb Hs Hne. pose proof (c_str_nonzero _ _ Hs) as Hnz.
  assert (Hv : forall h, valid (with_mem (mem st ++ [Some (Some <$> s)]) h)
             {| _init := Some (length (mem st));
                _length := N.of_nat (length s);
                _size := N.of_nat (length s) |}).
  { intros h. eapply valid_new; [reflexivity|reflexivity|].
    rewrite length_fmap. lia. }
  split.
  - erewrite exec_seq by (by eapply cstr_run).
    eapply print_str_unterminated; [tidy; apply lookup_insert_eq| |exact Hnz].
    unfold buffer. tidy. by rewrite list_lookup_middle.
  - erewrite exec_seq by (by eapply cstr_run).
    erewrite exec_seq.
    2:{ eapply copy_run; [tidy; apply lookup_insert_eq|apply Hv]. }
    eapply print_str_unterminated; [tidy; apply lookup_insert_eq| |exact Hnz].
    unfold buffer. tidy. rewrite list_lookup_middle by (by rewrite length_app).
    do 2 f_equal. unfold content, buffer. tidy.
    rewrite list_lookup_middle by done.
    rewrite take_ge; [done|]. rewrite length_fmap. lia.
Qed.

Lemma print_str_after_construct_witness :
  let cells := [Some "a"; Some "b"; Some "c"; Some zero]%char in
  (mem after_literal !! 0%nat = Some (Some cells) /\
   c_str cells = Ok ["a"; "b"; "c"]%char /\ "S" <> "T") /\
  exec (My_string_cstr "S" (Some 0%nat) ;; print_str "S" "s") after_literal
  = Fault OutOfBounds /\
  exec (My_string_cstr "S" (Some 0%nat) ;; My_string_copy "T" "S" ;;
        print_str "T" "t") after_literal
  = Fault OutOfBounds.
Proof.
  intros cells.
  assert (H1 : mem after_literal !! 0%nat = Some (Some cells)) by reflexivity.
  assert (H2 : c_str cells = Ok ["a"; "b"; "c"]%char) by reflexivity.
  assert (H3 : "S" <> "T") by discriminate.
  split; [done|].
  exact (print_str_after_construct after_literal "S" "T" _ 0%nat cells _
           H1 H2 H3).
Defined.

(** ** Sequences *)

Lemma exec_bind {A B} (m : M A) (k : A -> M B) st a st1 :
  m st = Ok (a, st1) -> exec (bind m k) st = exec (k a) st1.
Proof. unfold exec, bind. by intros ->. Qed.

Lemma exec_fault {A B} (m : M A) (k : A -> M B) st f :
  exec m st = Fault f -> exec (bind m k) st = Fault f.
Proof. unfold exec, bind. by destruct (m st) as [[a s]|f']; [|intros [= ->]]. Qed.

(** ** [Std_string] and [My_custom] *)

Section Composition_runs.

Variable moved_from : string -> string.

Lemma My_custom_default_run st this :
  exec (My_custom_default this) st
  = Ok (with_cout (cout st ++ ["Std_string - Default constructor called";
                               "My_custom-Default constructor called"]%string)
          (with_customs
             (<[this := {| _str := {| _std_string := "default" |} |}]>
                (customs st)) st)).
Proof.
  destruct st. unfold exec, My_custom_default, Std_string_default, bind,
    put_custom, print. norm. by rewrite <- !app_assoc.
Qed.

Lemma My_custom_copy_run st this rhs v :
  customs st !! rhs = Some v ->
  exec (My_custom_copy this rhs) st
  = Ok (with_cout (cout st ++ ["My_custom-move failed!"%string])
          (with_customs
             (<[this := {| _str := {| _std_string := _std_string (_str v) |} |}]>
                (customs st)) st)).
Proof.
  intros Hv. unfold exec, My_custom_copy, Std_string_copy, bind, get_custom,
    put_custom, print. by rewrite Hv.
Qed.

Lemma My_custom_move_run st this rhs v :
  customs st !! rhs = Some v -> this <> rhs ->
  exec (My_custom_move moved_from this rhs) st
  = Ok (with_cout (cout st ++ ["Std_string - Default constructor called";
                               "Std_string - move assignation called";
                               "My_custom - move constructor called"]%string)
          (with_customs
             (<[this := {| _str := {| _std_string := _std_string (_str v) |} |}]>
                (<[rhs := {| _str := {| _std_string :=
                                          moved_from (_std_string (_str v)) |} |}]>
                   (customs st))) st)).
Proof.
  intros Hv Hne. destruct st as [h o c l]. tidy_all.
  unfold exec, My_custom_move, Std_string_default, Std_string_move_assign,
    bind, get_custom, put_custom, print. tidy.
  rewrite lookup_insert_ne by done. rewrite Hv. norm.
  rewrite <- !app_assoc. cbn [app]. do 2 f_equal.
  apply map_eq. intros k.
  destruct (decide (k = this)) as [->|]; [by simplify_map_eq|].
  destruct (decide (k = rhs)) as [->|]; by simplify_map_eq.
Qed.

Lemma My_custom_dtor_run st this :
  exec (My_custom_dtor this) st
  = Ok (with_cout (cout st ++ ["My_custom - Destructor called";
                               "Std_string - Destructor called"]%string)
          (with_customs (delete this (customs st)) st)).
Proof.
  destruct st. unfold exec, My_custom_dtor, Std_string_dtor, bind,
    forget_custom, print. norm. by rewrite <- !app_assoc.
Qed.

End Composition_runs.

(** X8. [case_4], from any state and whatever a moved-from [std::string]
    holds: it ends without a fault, writes ten lines in this order (the
    member is constructed before the body of each constructor runs and
    destroyed after the body of each destructor, the move goes through the
    move assignment of the member, [lhs] is destroyed before [rhs]), and
    leaves no [My_custom] object named [lhs] or [rhs]. *)
Theorem case_4_trace (moved_from : string -> string) st :
  exec (case_4 moved_from) st
  = Ok (with_cout
          (cout st ++ ["Trying to move (Case 4)";
                       "Std_string - Default constructor called";
                       "My_custom-Default constructor called";
                       "Std_string - Default constructor called";
                       "Std_string - move assignation called";
                       "My_custom - move constructor called";
                       "My_custom - Destructor called";
                       "Std_string - Destructor called";
                       "My_custom - Destructor called";
                       "Std_string - Destructor called"]%string)
          (with_customs (delete "rhs" (delete "lhs" (customs st))) st)).
Proof.
  unfold case_4. assert ("lhs" <> "rhs") as Hne by discriminate.
  revert Hne. generalize "lhs" "rhs". intros lhs rhs Hne.
  destruct st as [h o c l].
  erewrite exec_seq by reflexivity. tidy.
  erewrite exec_seq by apply My_custom_default_run. tidy.
  erewrite exec_seq
    by (apply My_custom_move_run; [tidy; apply lookup_insert_eq|done]). tidy.
  erewrite exec_seq by apply My_custom_dtor_run. tidy.
  rewrite My_custom_dtor_run. norm.
  rewrite <- !app_assoc. cbn [app]. do 2 f_equal.
  apply map_eq. intros k.
  destruct (decide (k = rhs)) as [->|]; [by simplify_map_eq|].
  destruct (decide (k = lhs)) as [->|]; by simplify_map_eq.
Qed.

(** X9. The two constructors of [My_custom] from another object, side by
    side.  Both leave in the member of the target the value the member of
    the source had.  The copy constructor leaves the source as it was and
    writes one line, "My_custom-move failed!" (the defaulted copy
    constructor of the member writes none); the move constructor leaves in
    the source what the move assignment of [std::string] leaves, and writes
    three lines. *)
Theorem copy_versus_move (moved_from : string -> string) st this rhs v :
  customs st !! rhs = Some v -> this <> rhs ->
  exec (My_custom_copy this rhs) st
  = Ok (with_cout (cout st ++ ["My_custom-move failed!"%string])
          (with_customs
             (<[this := {| _str := {| _std_string := _std_string (_str v) |} |}]>
                (customs st)) st)) /\
  exec (My_custom_move moved_from this rhs) st
  = Ok (with_cout (cout st ++ ["Std_string - Default constructor called";
                               "Std_string - move assignation called";
                               "My_custom - move constructor called"]%string)
          (with_customs
             (<[this := {| _str := {| _std_string := _std_string (_str v) |} |}]>
                (<[rhs := {| _str := {| _std_string :=
                                          moved_from (_std_string (_str v)) |} |}]>
                   (customs st))) st)).
Proof.
  intros Hv Hne. split;
    [by apply My_custom_copy_run|by apply My_custom_move_run].
Qed.

Lemma copy_versus_move_witness :
  let v := {| _str := {| _std_string := "default" |} |} in
  (customs after_default_custom !! "rhs" = Some v /\ "lhs" <> "rhs") /\
  (exists st', exec (My_custom_copy "lhs" "rhs") after_default_custom = Ok st' /\
               customs st' !! "lhs" = Some v /\ customs st' !! "rhs" = Some v) /\
  (exists st', exec (My_custom_move (fun _ => ""%string) "lhs" "rhs")
                 after_default_custom = Ok st' /\
               customs st' !! "lhs" = Some v /\
               customs st' !! "rhs"
               = Some {| _str := {| _std_string := "" |} |}).
Proof.
  intros v.
  assert (H1 : customs after_default_custom !! "rhs" = Some v)
    by (vm_compute; reflexivity).
  assert (H2 : "lhs" <> "rhs") by discriminate.
  destruct (copy_versus_move (fun _ => ""%string) _ "lhs" "rhs" v H1 H2)
    as [Hc Hm].
  split; [done|]. split.
  - eexists. split; [exact Hc|]. split; vm_compute; reflexivity.
  - eexists. split; [exact Hm|]. split; vm_compute; reflexivity.
Defined.

(** ** The scenarios of [My_string] *)

Lemma heap_at {A} (h l : list A) i : (h ++ l) !! (length h + i)%nat = l !! i.
Proof. rewrite lookup_app_r by lia. f_equal. lia. Qed.

Lemma valid_at st h l i (cells : block) len sz :
  mem st = h ++ l -> l !! i = Some (Some cells) ->
  (N.to_nat len <= length cells)%nat ->
  valid st {| _init := Some (length h + i)%nat; _length := len; _size := sz |}.
Proof.
  intros Hm Hl Hlen. unfold valid, buffer. tidy.
  by rewrite Hm, heap_at, Hl.
Qed.

Lemma content_at st h l i (cells : block) len sz :
  mem st = h ++ l -> l !! i = Some (Some cells) ->
  length cells = N.to_nat len ->
  content st {| _init := Some (length h + i)%nat; _length := len; _size := sz |}
  = cells.
Proof.
  intros Hm Hl Hlen. unfold content, buffer. tidy.
  rewrite Hm, heap_at, Hl. apply take_ge. lia.
Qed.

(** X10. [case_2], from any state: it ends without a fault, writes five
    lines, and leaves in the free store only the array of the literal: the
    allocation of [rhs] and the one the copy assignment makes for [lhs] are
    both released, each once, and no [My_string] named [lhs] or [rhs] is
    left. *)
Theorem case_2_run st :
  exec case_2 st
  = Ok (with_cout (cout st ++ ["Case 2 : ";
                               "Default constructor has been called";
                               "COPY assignment has been called";
                               "DESTRUCTOR has been called";
                               "DESTRUCTOR has been called"]%string)
          (with_objs (delete "lhs" (delete "rhs" (objs st)))
             (with_mem
                (mem st ++
                 [Some ((Some <$> list_ascii_of_string "Not empty")
                        ++ [Some zero]);
                  None; None]) st))).
Proof.
  unfold case_2. assert ("lhs" <> "rhs") as Hne by discriminate.
  revert Hne. generalize "lhs" "rhs". intros lhs rhs Hne.
  destruct st as [h o c l].
  erewrite exec_seq by reflexivity. norm.
  erewrite exec_seq by reflexivity. norm.
  erewrite exec_bind by reflexivity. norm.
  erewrite exec_seq.
  2:{ eapply (cstr_run _ rhs (length h)); [tidy; by apply list_lookup_middle|].
      reflexivity. }
  norm. rewrite length_app. cbn [length].
  set (lit := Some (map Some _ ++ _)).
  set (txt := Some (Some <$> _)).
  erewrite exec_seq.
  2:{ eapply (copy_assign_run _ lhs rhs);
        [done
        |tidy; rewrite lookup_insert_ne by done; apply lookup_insert_eq
        |tidy; apply lookup_insert_eq| | |].
      - by apply valid_null.
      - eapply (valid_new _ (h ++ [lit])); [reflexivity|tidy|subst txt; cbn; lia].
        rewrite length_app. cbn [length]. done.
      - by left. }
  norm. cbn [release nullptr]. rewrite <- !app_assoc. cbn [app].
  erewrite (content_at _ h [lit; txt] 1); [|reflexivity|reflexivity|reflexivity].
  erewrite exec_seq.
  2:{ eapply (dtor_run _ rhs);
        [tidy; rewrite lookup_insert_ne by done; apply lookup_insert_eq|].
      eapply (valid_at _ h _ 1); [reflexivity|reflexivity|cbn; lia]. }
  norm. cbn [release]. rewrite insert_app_r. cbn [insert list_insert].
  rewrite length_app. cbn [length].
  erewrite (dtor_run _ lhs).
  2:{ tidy. rewrite lookup_delete_ne by done. apply lookup_insert_eq. }
  2:{ eapply (valid_at _ h _ 2); [reflexivity|reflexivity|cbn; lia]. }
  norm. cbn [release]. rewrite insert_app_r. cbn [insert list_insert].
  rewrite <- !app_assoc. cbn [app]. do 2 f_equal.
  apply map_eq. intros k.
  destruct (decide (k = lhs)) as [->|]; [by simplify_map_eq|].
  destruct (decide (k = rhs)) as [->|]; by simplify_map_eq.
Qed.

(** X11. [case_1] and [case_3], from any state, do not reach their end:
    each renders a string that was built without a terminator ([rhs] right
    after its construction in [case_1], [lhs] right after the copy
    assignment in [case_3]), and [print_str] runs [strlen] past the end of
    the allocation. *)
Theorem case_1_and_case_3_fault st :
  exec case_1 st = Fault OutOfBounds /\ exec case_3 st = Fault OutOfBounds.
Proof.
  destruct st as [h o c l]. split.
  - unfold case_1.
    erewrite exec_seq by reflexivity. norm.
    erewrite exec_bind by reflexivity. norm.
    assert (Hs : c_str (map Some (list_ascii_of_string "someRandomMessage")
                        ++ [Some zero])
                 = Ok (list_ascii_of_string "someRandomMessage"))
      by reflexivity.
    erewrite exec_seq.
    2:{ eapply (cstr_run _ "rhs" (length h));
          [tidy; by apply list_lookup_middle|exact Hs]. }
    norm. apply exec_fault.
    eapply print_str_unterminated;
      [tidy; apply lookup_insert_eq| |exact (c_str_nonzero _ _ Hs)].
    unfold buffer. tidy. rewrite <- app_assoc.
    replace (length (h ++ [Some (map Some (list_ascii_of_string "someRandomMessage") ++ [Some zero])]))
      with (length h + 1)%nat by (rewrite length_app; cbn; lia).
    by rewrite heap_at.
  - unfold case_3. assert ("lhs" <> "rhs") as Hne by discriminate.
    revert Hne. generalize "lhs" "rhs". intros lhs rhs Hne.
    erewrite exec_seq by reflexivity. norm.
    erewrite exec_bind by reflexivity. norm.
    assert (Hs : c_str (map Some (list_ascii_of_string
                                    "thisIsAssignmentIsTooLong")
                        ++ [Some zero])
                 = Ok (list_ascii_of_string "thisIsAssignmentIsTooLong"))
      by reflexivity.
    erewrite exec_seq.
    2:{ eapply (cstr_run _ rhs (length h));
          [tidy; by apply list_lookup_middle|exact Hs]. }
    norm.
    erewrite exec_bind by reflexivity. norm.
    rewrite !length_app. cbn [length]. rewrite <- !app_assoc. cbn [app].
    set (lit := Some (map Some _ ++ _)).
    set (txt := Some (Some <$> _)).
    erewrite exec_seq.
    2:{ eapply (cstr_run _ lhs (length h + 1 + 1)%nat [Some zero] []);
          [tidy|reflexivity].
        replace (length h + 1 + 1)%nat with (length h + 2)%nat by lia.
        by rewrite heap_at. }
    norm. rewrite !length_app. cbn [length].
    rewrite <- !app_assoc. cbn [app].
    erewrite exec_seq.
    2:{ eapply (copy_assign_run _ lhs rhs);
          [done
          |tidy; apply lookup_insert_eq
          |tidy; rewrite lookup_insert_ne by done; apply lookup_insert_eq
          | | |].
        - eapply (valid_at _ h _ 3); [reflexivity|reflexivity|cbn; lia].
        - eapply (valid_at _ h _ 1); [reflexivity|reflexivity|].
          rewrite length_fmap. lia.
        - right. tidy. intros [= H]. lia. }
    norm.
    erewrite (content_at _ h _ 1);
      [|reflexivity|reflexivity|rewrite length_fmap; lia].
    apply exec_fault.
    eapply print_str_unterminated;
      [tidy; apply lookup_insert_eq| |exact (c_str_nonzero _ _ Hs)].
    unfold buffer. tidy.
    by rewrite list_lookup_middle by (by rewrite length_release).
Qed.

(** ** The append that does not grow the buffer *)

Lemma append_in_place st a b oa ob pa cells :
  objs st !! a = Some oa -> objs st !! b = Some ob ->
  _length ob < _size oa -> valid st ob ->
  _init oa = Some pa -> mem st !! pa = Some (Some cells) ->
  (N.to_nat (_length oa) + N.to_nat (_length ob) <= length cells)%nat ->
  (a <> b -> separate oa ob) ->
  exec (append a b) st
  = Ok (with_mem (<[pa := Some (overwrite (N.to_nat (_length oa))
                                  (content st ob) cells)]> (mem st)) st).
Proof.
  intros Ha Hb Hlt Hvb Hpa Hcells Hroom Hsep.
  unfold exec, append. do 2 step. rewrite decide_False by lia. do 5 step.
  rewrite Hpa.
  destruct (decide (_length ob = 0)) as [Hz|Hnz].
  - rewrite Hz, memcpy_nothing.
    assert (content st ob = []) as ->.
    { apply length_zero_iff_nil. rewrite length_content by done. lia. }
    rewrite overwrite_nil. rewrite list_insert_id by done.
    by rewrite with_mem_id.
  - destruct (_init ob) as [pb|] eqn:Epb;
      [|unfold valid in Hvb; by rewrite Epb in Hvb].
    destruct (valid_pointer _ _ _ Hvb Epb) as (from & Hfrom & Hl & Hc).
    rewrite (memcpy_run _ pb pa from cells); try done.
    + by rewrite Hc.
    + intros [-> Hov]. destruct (decide (a = b)) as [->|Hne].
      * simplify_eq. lia.
      * specialize (Hsep Hne). unfold separate, nullptr in Hsep.
        destruct Hsep; congruence.
Qed.

(** X12. The append that does not grow the buffer.  When the added length
    is below the stored capacity, [a += b] allocates and releases nothing:
    with room for the added bytes after the stored length in the allocation
    of [a], it writes the content of [b] there and changes nothing else;
    without room, the copy runs past the end of the allocation. *)
Theorem append_without_growth st a b oa ob pa cells :
  objs st !! a = Some oa -> objs st !! b = Some ob ->
  _length ob < _size oa -> valid st ob ->
  _init oa = Some pa -> mem st !! pa = Some (Some cells) ->
  (a <> b -> separate oa ob) ->
  ((N.to_nat (_length oa) + N.to_nat (_length ob) <= length cells)%nat ->
   exec (append a b) st
   = Ok (with_mem (<[pa := Some (overwrite (N.to_nat (_length oa))
                                   (content st ob) cells)]> (mem st)) st)) /\
  ((length cells < N.to_nat (_length oa) + N.to_nat (_length ob))%nat ->
   _length ob <> 0 ->
   exec (append a b) st = Fault OutOfBounds).
Proof.
  intros Ha Hb Hlt Hvb Hpa Hcells Hsep. split.
  - intros Hroom. by eapply append_in_place.
  - intros Hroom Hnz. eapply append_overflow; try done.
    unfold buffer. by rewrite Hpa, Hcells.
Qed.

Lemma append_without_growth_witness :
  let oa := {| _init := Some 6%nat; _length := 2; _size := 2 |} in
  let ob := {| _init := Some 8%nat; _length := 1; _size := 1 |} in
  let cells := [Some "a"; Some "b"; Some "c"; Some "d"]%char in
  (objs with_slack !! "a" = Some oa /\ objs with_slack !! "d" = Some ob /\
   _length ob < _size oa /\ valid with_slack ob /\
   mem with_slack !! 6%nat = Some (Some cells) /\ separate oa ob /\
   (N.to_nat (_length oa) + N.to_nat (_length ob) <= length cells)%nat) /\
  (exists st' o,
      exec (append "a" "d") with_slack = Ok st' /\
      objs st' !! "a" = Some o /\
      buffer st' o = Some [Some "a"; Some "b"; Some "z"; Some "d"]%char /\
      length (mem st') = length (mem with_slack)).
Proof.
  intros oa ob cells.
  assert (H1 : objs with_slack !! "a" = Some oa) by (vm_compute; reflexivity).
  assert (H2 : objs with_slack !! "d" = Some ob) by (vm_compute; reflexivity).
  assert (H3 : _length ob < _size oa) by (vm_compute; reflexivity).
  assert (H4 : valid with_slack ob) by (vm_compute; lia).
  assert (H5 : mem with_slack !! 6%nat = Some (Some cells))
    by (vm_compute; reflexivity).
  assert (H6 : separate oa ob) by (right; discriminate).
  assert (H7 : (N.to_nat (_length oa) + N.to_nat (_length ob)
                <= length cells)%nat) by (vm_compute; lia).
  split; [by split_and!|].
  eexists _, _. split.
  - exact (proj1 (append_without_growth _ "a" "d" oa ob 6%nat cells
                    H1 H2 H3 H4 eq_refl H5 (fun _ => H6)) H7).
  - split; [vm_compute; reflexivity|]. split; vm_compute; reflexivity.
Defined.

(** ** Assignment and the previous buffer of the target *)

(** X13. An assignment releases what the target held.  For valid, distinct
    operands that share no allocation, the copy assignment releases the
    allocation of the target and makes one new allocation, which holds the
    content of the source; the move assignment releases the allocation of
    the target and makes none.  Nothing else in the free store changes. *)
Theorem assignment_releases st this rhs t r :
  this <> rhs -> objs st !! this = Some t -> objs st !! rhs = Some r ->
  valid st t -> valid st r -> separate t r ->
  exec (copy_assign this rhs) st
  = Ok (with_cout (cout st ++ ["COPY assignment has been called"])
          (with_objs (<[this := {| _init := Some (length (mem st));
                                   _length := _length r;
                                   _size := _size r |}]> (objs st))
             (with_mem (release (_init t) (mem st) ++ [Some (content st r)])
                st))) /\
  exec (move_assign this rhs) st
  = Ok (with_cout (cout st ++ ["MOVE assignment has been called"])
          (with_objs (<[rhs := empty_marker]> (<[this := r]> (objs st)))
             (with_mem (release (_init t) (mem st)) st))).
Proof.
  intros Hne Ht Hr Hvt Hvr Hs. split.
  - by apply copy_assign_run.
  - by apply move_assign_run.
Qed.

Lemma assignment_releases_witness :
  let s := {| _init := Some 1%nat; _length := 3; _size := 3 |} in
  let t := {| _init := Some 3%nat; _length := 1; _size := 1 |} in
  ("T" <> "S" /\ objs two_strings !! "T" = Some t /\
   objs two_strings !! "S" = Some s /\
   valid two_strings t /\ valid two_strings s /\ separate t s) /\
  (exists st', exec (copy_assign "T" "S") two_strings = Ok st' /\
               mem st' !! 3%nat = Some None /\
               mem st' !! 4%nat
               = Some (Some [Some "a"; Some "b"; Some "c"]%char)) /\
  (exists st', exec (move_assign "T" "S") two_strings = Ok st' /\
               mem st' !! 3%nat = Some None /\
               length (mem st') = length (mem two_strings)).
Proof.
  intros s t.
  assert (H0 : "T" <> "S") by discriminate.
  assert (H1 : objs two_strings !! "T" = Some t) by (vm_compute; reflexivity).
  assert (H2 : objs two_strings !! "S" = Some s) by (vm_compute; reflexivity).
  assert (H3 : valid two_strings t) by (vm_compute; lia).
  assert (H4 : valid two_strings s) by (vm_compute; lia).
  assert (H5 : separate t s) by (right; discriminate).
  destruct (assignment_releases _ "T" "S" t s H0 H1 H2 H3 H4 H5) as [Hc Hm].
  split; [by split_and!|]. split.
  - eexists. split; [exact Hc|]. split; vm_compute; reflexivity.
  - eexists. split; [exact Hm|]. split; vm_compute; reflexivity.
Defined.

(** ** The stored capacity *)

Ltac finish_eq :=
  tidy; rewrite ?insert_insert_eq;
  repeat (apply map_Forall_insert_2; [tidy; cap; first [done | congruence]|]);
  done.

Lemma exact_capacity_perform op st st' :
  exact_capacity st -> exec (perform op) st = Ok st' -> exact_capacity st'.
Proof.
  unfold exact_capacity. intros Hc H. apply exec_Ok in H as [u H].
  destruct op as [this|this rhs|this rhs|this rhs|this rhs|this rhs|this rhs];
    cbn [perform] in H.
  - unfold My_string_default in H. invert H. apply print_Ok in H as ->. tidy.
    by apply map_Forall_insert_2.
  - unfold My_string_cstr in H. invert H.
    apply strlen_Ok in Hm as Hst. subst st0.
    apply strlen_Ok in Hm0 as Hst. subst st1.
    rewrite Hm in Hm0. injection Hm0 as <-.
    apply memcpy_objs in Hm1 as Ho. apply put_Ok in H as ->. tidy.
    rewrite Ho. tidy. by apply map_Forall_insert_2.
  - unfold My_string_copy in H. invert H. apply print_Ok in H as ->.
    tidy_all. apply memcpy_objs in Hm as Ho. tidy_all. simplify_map_eq.
    rewrite Ho. apply map_Forall_insert_2; [|done]. tidy. by cap.
  - unfold My_string_move in H. invert H. apply print_Ok in H as ->.
    tidy_all. simplify_map_eq. finish_eq.
  - unfold copy_assign in H. invert H. apply print_Ok in H as ->.
    apply memcpy_objs in Hm0 as Ho1.
    assert (objs st0 = objs st) as Ho0.
    { case_decide; [by eapply delete_arr_objs|by apply ret_Ok in Hm as [_ ->]]. }
    clear Hm Hm0. tidy_all. rewrite Ho1 in *. tidy_all. rewrite Ho0 in *.
    destruct (decide (this = rhs)) as [->|Hne]; simplify_map_eq; finish_eq.
  - unfold move_assign in H. case_decide as Hne.
    + invert H. apply print_Ok in H as ->.
      apply delete_arr_objs in Hm as Ho. clear Hm.
      tidy_all. rewrite Ho in *. simplify_map_eq. finish_eq.
    + by apply ret_Ok in H as [_ ->].
  - apply append_Ok in H
      as (o & r & st1 & o1 & r1 & Ho & Hr & Hres & Ho1 & Hr1 & E1 & E2 & E3 & H).
    apply memcpy_objs in H as ->.
    case_decide; [|by subst st1].
    apply resize_Ok in Hres as (o' & from & Ho' & _ & _ & ->).
    simplify_map_eq. finish_eq.
Qed.

Lemma exact_capacity_dtor this st st' :
  exact_capacity st -> exec (My_string_dtor this) st = Ok st' ->
  exact_capacity st'.
Proof.
  unfold exact_capacity. intros Hc H. apply exec_Ok in H as [u H].
  unfold My_string_dtor in H. invert H. unfold forget in H.
  injection H as H. subst st'. apply delete_arr_objs in Hm as Eo.
  tidy. rewrite Eo. by apply map_Forall_delete.
Qed.

(** X14. The stored capacity never records spare room: every operation of
    [My_string] that ends without a fault, the append and the destructor
    included, takes a state in which every object has [_size = _length] to
    one in which every object has (the program starts with no object at
    all).  In such a state the guard of [operator+=] compares the two
    stored lengths: the append grows the buffer exactly when the left
    operand is not longer than the right one. *)
Theorem exact_capacity_preserved st :
  exact_capacity st ->
  (forall op st', exec (perform op) st = Ok st' -> exact_capacity st') /\
  (forall this st', exec (My_string_dtor this) st = Ok st' ->
                    exact_capacity st') /\
  (forall a b oa ob,
      objs st !! a = Some oa -> objs st !! b = Some ob ->
      (_size oa <= _length ob <-> _length oa <= _length ob)).
Proof.
  intros Hc. split_and!.
  - intros op st'. by apply exact_capacity_perform.
  - intros this st'. by apply exact_capacity_dtor.
  - intros a b oa ob Ha Hb.
    apply (map_Forall_lookup_1 _ _ _ _ Hc) in Ha. cbn beta in Ha.
    by rewrite Ha.
Qed.

Lemma exact_capacity_preserved_witness :
  exact_capacity after_literal /\
  exec (perform (Construct_from "S" (Some 0%nat))) after_literal
  = Ok after_construct /\
  exec (perform (Copy_construct "T" "S")) after_construct = Ok after_copy /\
  exec (My_string_dtor "S") after_copy = Ok after_dtor /\
  exact_capacity after_construct /\ exact_capacity after_copy /\
  exact_capacity after_dtor.
Proof.
  assert (H0 : exact_capacity after_literal) by apply map_Forall_empty.
  assert (H1 : exec (perform (Construct_from "S" (Some 0%nat))) after_literal
               = Ok after_construct) by (vm_compute; reflexivity).
  assert (H2 : exec (perform (Copy_construct "T" "S")) after_construct
               = Ok after_copy) by (vm_compute; reflexivity).
  assert (H3 : exec (My_string_dtor "S") after_copy = Ok after_dtor)
    by (vm_compute; reflexivity).
  pose proof (proj1 (exact_capacity_preserved _ H0) _ _ H1) as O1.
  pose proof (proj1 (exact_capacity_preserved _ O1) _ _ H2) as O2.
  pose proof (proj1 (proj2 (exact_capacity_preserved _ O2)) _ _ H3) as O3.
  by split_and!.
Defined.
